(** * Lognormal uncertainty distribution of stats_arrays

    A shallow embedding of [stats_arrays/distributions/lognormal.py]
    (class [LognormalUncertainty]) together with the properties its
    specification states about it.

    Numbers.  A float of the parameter table or of a value array is a
    real number or the NaN sentinel; comparisons and multiplication by
    -1, which are exact, propagate NaN the way IEEE 754 does (NaN
    compares false with everything).  [statistics] computes with
    Python floats, whose [**] and [/] raise and whose exponentials
    overflow: it is modelled over machine arithmetic with NaN, the
    infinities and rounding, the rounding function and the library
    functions being parameters with the facts of binary64 as laws.

    Arrays.  The structured parameter array is a list of rows; value
    arrays live in a heap of array objects addressed by references, so
    that in-place assignment through an alias is visible to the caller.

    Library primitives.  [scipy.stats.lognorm] and the random generator
    are not part of the repository: they are parameters of the
    development (type classes), and the few mathematical facts about
    them that a statement needs are explicit hypotheses. *)

From Stdlib Require Import Reals Lra String.
From stdpp Require Import base option list gmap strings.

Local Open Scope R_scope.

(* ===================================================================== *)
(** * Floats *)
(* ===================================================================== *)

Inductive float : Type :=
  | NaN
  | Fin (r : R).

#[global] Instance Rle_rel_dec : RelDecision Rle := Rle_dec.
#[global] Instance Rlt_rel_dec : RelDecision Rlt := Rlt_dec.
#[global] Instance R_eq_dec : EqDecision R := Req_dec_T.

Module Float.

(** [np.isnan] *)
Definition isnan (x : float) : bool :=
  match x with NaN => true | Fin _ => false end.

(** [x <= y] and [x < y]; a comparison with NaN is [False]. *)
Definition le (x y : float) : bool :=
  match x, y with
  | Fin a, Fin b => bool_decide (a <= b)
  | _, _ => false
  end.

Definition lt (x y : float) : bool :=
  match x, y with
  | Fin a, Fin b => bool_decide (a < b)
  | _, _ => false
  end.

Definition lift1 (f : R -> R) (x : float) : float :=
  match x with NaN => NaN | Fin a => Fin (f a) end.

Definition lift2 (f : R -> R -> R) (x y : float) : float :=
  match x, y with
  | Fin a, Fin b => Fin (f a b)
  | _, _ => NaN
  end.

Definition add := lift2 Rplus.
Definition sub := lift2 Rminus.
Definition mul := lift2 Rmult.

(** Division; a zero divisor has no finite quotient.  Every divisor
    the code forms is an exponential, hence positive. *)
Definition div (x y : float) : float :=
  match x, y with
  | Fin a, Fin b => if bool_decide (b = 0) then NaN else Fin (a / b)
  | _, _ => NaN
  end.

(** [np.exp], [np.abs] *)
Definition exp := lift1 Rtrigo_def.exp.
Definition abs := lift1 Rabs.

(** [x ** 2] *)
Definition sq (x : float) : float := lift1 (fun a => a ^ 2) x.

(** [x ** y] for a positive base. *)
Definition pow := lift2 Rpower.

(** The integer literals [0], [1], [-1], [2] promoted to float. *)
Definition zero : float := Fin 0.
Definition one : float := Fin 1.
Definition minus_one : float := Fin (-1).
Definition two : float := Fin 2.

(** [-1 * x] *)
Definition neg (x : float) : float := mul minus_one x.

(** Promotion of an integer to float. *)
Definition of_nat (n : nat) : float := Fin (INR n).
Definition of_Z (z : Z) : float := Fin (IZR z).

End Float.

(* ===================================================================== *)
(** * Exceptions and results *)
(* ===================================================================== *)

Inductive exn : Type :=
  | InvalidParamsError (msg : string)
  | ImproperBoundsError
  | OneRowError
  | IndexError
  | OverflowError
  | ZeroDivisionError.

Inductive result (A : Type) : Type :=
  | Ok (a : A)
  | Raise (e : exn).

Arguments Ok {A} a.
Arguments Raise {A} e.

(* ===================================================================== *)
(** * The parameter table *)
(* ===================================================================== *)

Record params_row : Type := mk_row {
  loc : float;
  scale : float;
  shape : float;
  minimum : float;
  maximum : float;
  negative : bool
}.

(** [params], a one-dimensional structured array: one record per
    random variable.  [params['f']] is the column [f <$> params] and
    [params.shape[0]] is [length params]. *)
Abbreviation table := (list params_row).

Definition with_negative (b : bool) (p : params_row) : params_row :=
  mk_row (loc p) (scale p) (shape p) (minimum p) (maximum p) b.

Definition with_shape (s : float) (p : params_row) : params_row :=
  mk_row (loc p) (scale p) s (minimum p) (maximum p) (negative p).

Definition with_loc (l : float) (p : params_row) : params_row :=
  mk_row l (scale p) (shape p) (minimum p) (maximum p) (negative p).

(** [a.sum()] of a boolean array: the number of [True] entries. *)
Definition np_sum (a : list bool) : nat := length (filter (fun b => b = true) a).

(** Truth value of a Python integer. *)
Definition truthy (n : nat) : bool := negb (Nat.eqb n 0).

(* ===================================================================== *)
(** * validate *)
(* ===================================================================== *)

Definition scale_msg : string :=
  "Real, positive scale (mu) values are required for lognormal uncertainties. Negative mu's should have``negative`` column set.".

Definition shape_msg : string :=
  "Real, positive shape (sigma) values are required for lognormal uncertainties.".

(** The test of lines 16 and 22 on one column:
    [np.isnan(col).sum() or (col <= 0).sum()]. *)
Definition nan_or_nonpositive (col : list float) : bool :=
  truthy (np_sum (Float.isnan <$> col))
  || truthy (np_sum ((fun x => Float.le x Float.zero) <$> col)).

Definition validate (params : table) : result unit :=
  if nan_or_nonpositive (scale <$> params) then
    Raise (InvalidParamsError scale_msg)
  else if nan_or_nonpositive (shape <$> params) then
    Raise (InvalidParamsError shape_msg)
  else Ok tt.

(** Whether an error message mentions a field name. *)
Definition mentions (field msg : string) : bool :=
  match String.index 0 field msg with
  | Some _ => true
  | None => false
  end.

(* ===================================================================== *)
(** * Error and heap monads *)
(* ===================================================================== *)

(** Sequencing of computations that may raise. *)
Definition bind {A B : Type} (m : result A) (k : A -> result B) : result B :=
  match m with
  | Ok a => k a
  | Raise e => Raise e
  end.

Notation "x <- m ;; k" := (bind m (fun x => k))
  (at level 100, m at next level, right associativity).

(** A value array: one- or two-dimensional. *)
Abbreviation vec := (list float).
Abbreviation matrix := (list (list float)).

Inductive ndarray : Type :=
  | Arr1 (v : vec)
  | Arr2 (m : matrix).

(** Array objects are addressed by references; two names for the same
    reference are aliases of one object. *)
Abbreviation ref := nat (only parsing).
Abbreviation heap := (gmap nat ndarray).

(** A computation that may read and update array objects and may
    raise.  The heap survives an exception. *)
Definition M (A : Type) : Type := heap -> result A * heap.

Definition ret {A : Type} (a : A) : M A := fun h => (Ok a, h).

Definition bindM {A B : Type} (m : M A) (k : A -> M B) : M B := fun h =>
  match m h with
  | (Ok a, h') => k a h'
  | (Raise e, h') => (Raise e, h')
  end.

Notation "x <~ m ;; k" := (bindM m (fun x => k))
  (at level 100, m at next level, right associativity).

Definition raise {A : Type} (e : exn) : M A := fun h => (Raise e, h).

Definition lift {A : Type} (r : result A) : M A := fun h => (r, h).

(** Creation of a new array object. *)
Definition alloc (a : ndarray) : M ref := fun h =>
  let r := fresh (dom h) in (Ok r, <[r := a]> h).

(** The object behind a reference.  A name always refers to an object
    in Python; the error branch only makes the function total. *)
Definition load (r : ref) : M ndarray := fun h =>
  match h !! r with
  | Some a => (Ok a, h)
  | None => (Raise IndexError, h)
  end.

(** In-place update of the object behind a reference. *)
Definition store (r : ref) (a : ndarray) : M unit := fun h =>
  (Ok tt, <[r := a]> h).

(** The rows of a two-dimensional array object. *)
Definition load2 (r : ref) : M matrix :=
  a <~ load r ;;
  match a with
  | Arr2 m => ret m
  | Arr1 _ => raise IndexError
  end.

(* ===================================================================== *)
(** * Array operations of NumPy *)
(* ===================================================================== *)

(** [a[i]], raising on an index out of range. *)
Definition getitem {A : Type} (a : list A) (i : nat) : result A :=
  match a !! i with
  | Some x => Ok x
  | None => Raise IndexError
  end.

(** [a[i, :] = xs] *)
Definition setrow (i : nat) (xs : vec) (a : matrix) : result matrix :=
  if decide (i < length a)%nat then Ok (<[i := xs]> a) else Raise IndexError.

(** [np.zeros(a.shape)] *)
Definition zeros_like (a : matrix) : matrix :=
  (fun row : vec => (fun _ => Float.zero) <$> row) <$> a.

(** [a[mask]] for a boolean [mask]: the selected rows, in order. *)
Fixpoint mask_get (mask : list bool) (a : matrix) : matrix :=
  match mask, a with
  | b :: mask', row :: a' =>
      if b then row :: mask_get mask' a' else mask_get mask' a'
  | _, _ => []
  end.

(** [a[mask] = vals]: the selected rows are overwritten, in order, by
    the rows of [vals]. *)
Fixpoint mask_set (mask : list bool) (a vals : matrix) : matrix :=
  match mask, a with
  | b :: mask', row :: a' =>
      if b then
        match vals with
        | v :: vals' => v :: mask_set mask' a' vals'
        | [] => row :: mask_set mask' a' []
        end
      else row :: mask_set mask' a' vals
  | _, _ => a
  end.

(** [-1 * a] *)
Definition neg_rows (a : matrix) : matrix :=
  (fun row : vec => Float.neg <$> row) <$> a.

(** [a[mask] = -1 * a[mask]] (lines 39, 48 and 68).  A boolean index
    whose length differs from the row count is an [IndexError]. *)
Definition negate_masked (mask : list bool) (a : matrix) : result matrix :=
  if decide (length mask = length a)
  then Ok (mask_set mask a (neg_rows (mask_get mask a)))
  else Raise IndexError.

(** [for row in range(n): results[row, :] = body(row)] *)
Definition for_rows (n : nat) (body : nat -> result vec) (results : matrix)
  : result matrix :=
  foldl (fun acc row => res <- acc ;; xs <- body row ;; setrow row xs res)
        (Ok results) (seq 0 n).

(** [a.T] for an array of shape [(_, ncols)]. *)
Definition transpose (ncols : nat) (a : matrix) : matrix :=
  (fun j => omap (fun row : vec => row !! j) a) <$> seq 0 ncols.

(** [np.linspace(start, stop, num)]: [num] evenly spaced points, the
    last one set to [stop]. *)
Definition linspace (start stop : float) (num : nat) : vec :=
  match num with
  | 0%nat => []
  | 1%nat => [start]
  | S n =>
      let step := Float.div (Float.sub stop start) (Float.of_nat n) in
      <[n := stop]>
        ((fun i => Float.add (Float.mul (Float.of_nat i) step) start) <$> seq 0 num)
  end.

(* ===================================================================== *)
(** * Machine arithmetic of Python floats *)
(* ===================================================================== *)

(** [statistics] computes with Python floats: [**] raises
    [OverflowError], [/] raises [ZeroDivisionError], [np.exp] overflows
    to infinity and underflows to zero, and every operation rounds.
    Its values are therefore binary64 numbers: NaN, an infinity
    ([XInf true] is minus infinity), or a finite real.  The sign of a
    zero is not modelled. *)
Inductive xfloat : Type :=
  | XNaN
  | XInf (minus : bool)
  | XFin (r : R).

(** What the machine contributes: rounding to the nearest binary64
    number (to an infinity on overflow), and the two library functions
    the code calls, at a finite argument: [np.exp] and the C library's
    [pow(x, 2.0)] behind Python's [x ** 2]. *)
Class Machine : Type := {
  rnd : R -> xfloat;
  np_exp_finite : R -> xfloat;
  libm_pow2 : R -> xfloat
}.

Module XFloat.

(** A float of the parameter table, and an integer, as a Python float. *)
Definition of_float (x : float) : xfloat :=
  match x with NaN => XNaN | Fin r => XFin r end.

Definition of_Z (z : Z) : xfloat := XFin (IZR z).

Definition neg (x : xfloat) : xfloat :=
  match x with
  | XNaN => XNaN
  | XInf s => XInf (negb s)
  | XFin r => XFin (- r)
  end.

(** [x <= y]; a comparison with NaN is [False]. *)
Definition le (x y : xfloat) : bool :=
  match x, y with
  | XNaN, _ => false
  | _, XNaN => false
  | XInf true, _ => true
  | XInf false, XInf false => true
  | XInf false, _ => false
  | XFin _, XInf t => negb t
  | XFin a, XFin b => bool_decide (a <= b)
  end.

(** [x == 0.0] *)
Definition is_zero (x : xfloat) : bool :=
  match x with
  | XFin r => bool_decide (r = 0)
  | _ => false
  end.

(** IEEE 754 multiplication, division and addition: the exact result
    rounded, with the standard's results at NaN and the infinities. *)
Definition mul {mach : Machine} (x y : xfloat) : xfloat :=
  match x, y with
  | XNaN, _ => XNaN
  | _, XNaN => XNaN
  | XInf s, XInf t => XInf (xorb s t)
  | XInf s, XFin b =>
      if bool_decide (b = 0) then XNaN else XInf (xorb s (bool_decide (b < 0)))
  | XFin a, XInf t =>
      if bool_decide (a = 0) then XNaN else XInf (xorb (bool_decide (a < 0)) t)
  | XFin a, XFin b => rnd (a * b)
  end.

Definition div {mach : Machine} (x y : xfloat) : xfloat :=
  match x, y with
  | XNaN, _ => XNaN
  | _, XNaN => XNaN
  | XInf _, XInf _ => XNaN
  | XInf s, XFin b => XInf (xorb s (bool_decide (b < 0)))
  | XFin _, XInf _ => XFin 0
  | XFin a, XFin b =>
      if bool_decide (b = 0)
      then (if bool_decide (a = 0) then XNaN else XInf (bool_decide (a < 0)))
      else rnd (a / b)
  end.

Definition add {mach : Machine} (x y : xfloat) : xfloat :=
  match x, y with
  | XNaN, _ => XNaN
  | _, XNaN => XNaN
  | XInf s, XInf t => if Bool.eqb s t then XInf s else XNaN
  | XInf s, XFin _ => XInf s
  | XFin _, XInf t => XInf t
  | XFin a, XFin b => rnd (a + b)
  end.

Definition sub {mach : Machine} (x y : xfloat) : xfloat := add x (neg y).

(** [np.exp(x)]: never raises. *)
Definition np_exp {mach : Machine} (x : xfloat) : xfloat :=
  match x with
  | XNaN => XNaN
  | XInf false => XInf false
  | XInf true => XFin 0
  | XFin a => np_exp_finite a
  end.

(** Python's [x ** 2] on a float: NaN and the infinities pass through
    ([inf ** 2] is [inf]); at a finite [x] an overflowing result is an
    [OverflowError], an underflowing one is zero. *)
Definition py_pow2 {mach : Machine} (x : xfloat) : result xfloat :=
  match x with
  | XNaN => Ok XNaN
  | XInf _ => Ok (XInf false)
  | XFin a =>
      match libm_pow2 a with
      | XInf _ => Raise OverflowError
      | v => Ok v
      end
  end.

(** Python's [x / y] on floats: a zero divisor is a
    [ZeroDivisionError], whatever the dividend. *)
Definition py_truediv {mach : Machine} (x y : xfloat) : result xfloat :=
  if is_zero y then Raise ZeroDivisionError else Ok (div x y).

(** The value is NaN, an infinity, or a binary64 number. *)
Definition binary64 {mach : Machine} (x : xfloat) : Prop :=
  match x with
  | XFin r => rnd r = XFin r
  | _ => True
  end.

End XFloat.

(** Facts of binary64 rounding and of the two library functions.  They
    hold of IEEE 754 round-to-nearest, of [np.exp] (which overflows
    above 709.78 and is within a few units in the last place of the
    exponential) and of [pow(x, 2.0)]. *)
Class MachineLaws (mach : Machine) : Prop := {
  rnd_not_nan : forall r : R, rnd r <> XNaN;
  rnd_monotone : forall a b : R, a <= b -> XFloat.le (rnd a) (rnd b) = true;
  rnd_idempotent : forall r r' : R, rnd r = XFin r' -> rnd r' = XFin r';
  rnd_opp : forall r : R, rnd (- r) = XFloat.neg (rnd r);
  rnd_0 : rnd 0 = XFin 0;
  rnd_1 : rnd 1 = XFin 1;
  exp_range : forall a : R,
    np_exp_finite a = XInf false
    \/ exists r : R, np_exp_finite a = XFin r /\ 0 <= r /\ rnd r = XFin r;
  exp_lower : forall (a : R) (n : nat),
    INR n <= a -> XFloat.le (XFin (2 ^ n)) (np_exp_finite a) = true;
  exp_overflow : forall a : R, 1024 <= a -> np_exp_finite a = XInf false;
  exp_finite : forall a : R, a <= 600 -> exists r : R, np_exp_finite a = XFin r;
  exp_moderate : forall a : R,
    -250 <= a <= 250 ->
    XFloat.le (XFin (/ 2 ^ 500)) (np_exp_finite a) = true
    /\ XFloat.le (np_exp_finite a) (XFin (2 ^ 500)) = true;
  pow2_range : forall a : R,
    libm_pow2 a = XInf false
    \/ exists q : R, libm_pow2 a = XFin q /\ 0 <= q /\ rnd q = XFin q;
  pow2_lower : forall a : R,
    1 <= a * a -> XFloat.le (XFin 1) (libm_pow2 a) = true;
  pow2_overflow : forall a : R, 2 ^ 1024 <= a * a -> libm_pow2 a = XInf false;
  pow2_finite : forall a : R,
    a * a <= 2 ^ 1000 -> exists q : R, libm_pow2 a = XFin q;
  pow2_positive : forall a : R, / 2 ^ 1000 <= a * a -> libm_pow2 a <> XFin 0
}.

(** A concrete machine for instantiating the facts above: exact
    arithmetic that overflows to an infinity where binary64 does. *)
Module Saturating.

Definition saturate (r : R) : xfloat :=
  if bool_decide (2 ^ 1024 <= r) then XInf false
  else if bool_decide (r <= - 2 ^ 1024) then XInf true
  else XFin r.

Definition machine : Machine :=
  {| rnd := saturate;
     np_exp_finite := fun a => saturate (exp a);
     libm_pow2 := fun a => saturate (a * a) |}.

End Saturating.

(* ===================================================================== *)
(** * Library primitives *)
(* ===================================================================== *)

(** [scipy.stats.lognorm]: [lognorm_cdf x s scale] is
    [stats.lognorm.cdf(x, s, scale=scale)] at one point, and likewise
    for [ppf] and [pdf]; the first parameter after the point is the
    shape slot [s], the second the keyword [scale].  On an array the
    function acts point by point. *)
Class Lognorm : Type := {
  lognorm_cdf : float -> float -> float -> float;
  lognorm_ppf : float -> float -> float -> float;
  lognorm_pdf : float -> float -> float -> float
}.

(** What the statements below use of the positive-domain family: its
    median is the [scale] parameter, and only there does the
    cumulative function take the value one half. *)
Class LognormLaws (P : Lognorm) : Prop := {
  cdf_at_scale : forall s sc : R,
    0 < s -> 0 < sc -> lognorm_cdf (Fin sc) (Fin s) (Fin sc) = Fin (1 / 2);
  cdf_half_only_at_scale : forall x s sc : R,
    0 < s -> 0 < sc ->
    lognorm_cdf (Fin x) (Fin s) (Fin sc) = Fin (1 / 2) -> x = sc;
  ppf_half : forall s sc : R,
    0 < s -> 0 < sc -> lognorm_ppf (Fin (1 / 2)) (Fin s) (Fin sc) = Fin sc
}.

(** A random generator: [lognormal g mean sigma (rows, cols)] is
    [g.lognormal(mean, sigma, size=(rows, cols))], the array drawn at
    the generator's current state. *)
Record RandomState : Type := {
  lognormal : vec -> vec -> nat * nat -> matrix
}.

(** A generator honours the requested shape, and its draws from valid
    parameters are positive. *)
Record RandomStateLaws (g : RandomState) : Prop := {
  lognormal_rows : forall mean sigma rows cols,
    length (lognormal g mean sigma (rows, cols)) = rows;
  lognormal_cols : forall mean sigma rows cols draw,
    draw ∈ lognormal g mean sigma (rows, cols) -> length draw = cols;
  lognormal_positive : forall mean sigma rows cols draw x,
    Forall (fun m => Float.isnan m = false) mean ->
    Forall (fun s => Float.lt Float.zero s = true) sigma ->
    draw ∈ lognormal g mean sigma (rows, cols) -> x ∈ draw ->
    Float.lt Float.zero x = true
}.

(** A concrete positive-domain family with the same location-scale
    structure (the log-logistic one), used to instantiate the
    parameters above at concrete inputs. *)
Module LogLogistic.

Definition valid (s sc : R) : bool := bool_decide (0 < s) && bool_decide (0 < sc).

Definition cdf (x s sc : float) : float :=
  match x, s, sc with
  | Fin x, Fin s, Fin sc =>
      if valid s sc then
        if bool_decide (0 < x)
        then Fin (1 / (1 + exp (- (ln (x / sc) / s))))
        else Fin 0
      else NaN
  | _, _, _ => NaN
  end.

Definition ppf (q s sc : float) : float :=
  match q, s, sc with
  | Fin q, Fin s, Fin sc =>
      if valid s sc && bool_decide (0 < q) && bool_decide (q < 1)
      then Fin (sc * exp (s * ln (q / (1 - q))))
      else NaN
  | _, _, _ => NaN
  end.

Definition pdf (x s sc : float) : float :=
  match x, s, sc with
  | Fin x, Fin s, Fin sc =>
      if valid s sc then
        if bool_decide (0 < x)
        then let e := exp (- (ln (x / sc) / s)) in
             Fin (e / (s * x * (1 + e) ^ 2))
        else Fin 0
      else NaN
  | _, _, _ => NaN
  end.

Definition prim : Lognorm :=
  {| lognorm_cdf := cdf; lognorm_ppf := ppf; lognorm_pdf := pdf |}.

(** A generator whose every draw is the median [exp(mean)] of its
    column. *)
Definition median_draws : RandomState :=
  {| lognormal := fun mean sigma size =>
       replicate (fst size) (Float.exp <$> take (snd size) (mean ++ replicate (snd size) Float.zero)) |}.

(** A helper that derives the flag from the sign of [loc]. *)
Definition flag_from_loc (p : params_row) : params_row :=
  with_negative (Float.lt (loc p) Float.zero) p.

End LogLogistic.

(* ===================================================================== *)
(** * Tables and arrays used at concrete inputs *)
(* ===================================================================== *)

Module Examples.

(** [loc = 2], [scale = 1], [shape = 1], no bounds, not mirrored. *)
Definition probe : params_row :=
  mk_row (Fin 2) (Fin 1) (Fin 1) NaN NaN false.

(** The same variable, mirrored. *)
Definition mirrored : params_row := with_negative true probe.

Definition bad_scale : params_row :=
  mk_row (Fin 2) (Fin 0) (Fin 1) NaN NaN false.

Definition bad_shape : params_row :=
  mk_row (Fin 2) (Fin 1) NaN NaN NaN false.

(** A row with both bounds set: [minimum = -1], [maximum = 5]. *)
Definition bounded : params_row :=
  mk_row (Fin 2) (Fin 1) (Fin 1) (Fin (-1)) (Fin 5) false.

Definition two_rows : table := [mirrored; probe].
Definition three_rows : table := [probe; mirrored; probe].

Definition values_2x2 : matrix := [[Fin 1; Fin 2]; [Fin 3; Fin 4]].

(** A heap holding one two-dimensional array object at address 7. *)
Definition heap_with (m : matrix) : heap := {[ 7%nat := Arr2 m ]}.

(** Rows that [validate] accepts and on which [statistics] leaves the
    range of binary64: [exp(600.0) ** 2] overflows; [exp(2000.0)] is
    already infinite. *)
Definition wide : params_row :=
  mk_row NaN (Fin 1) (Fin 600) NaN NaN true.

Definition huge : params_row :=
  mk_row NaN (Fin 2000) (Fin 2000) NaN NaN false.

End Examples.

(* ===================================================================== *)
(** * Helpers inherited from the base class *)
(* ===================================================================== *)

(** Modelled from the spec: [UncertaintyBase.check_2d_inputs] lives in
    [distributions/base.py], which is not among the sources.  The spec
    has every value or probability argument coerced to two dimensions
    with the table's row count: a one-dimensional input is broadcast
    across the rows (a new array object), a two-dimensional input is
    validated and handed back as the same object, and a row count that
    does not match is the shape/bounds error. *)
Definition check_2d_inputs (params : table) (vector : ref) : M ref :=
  a <~ load vector ;;
  match a with
  | Arr1 v => alloc (Arr2 (replicate (length params) v))
  | Arr2 m =>
      if decide (length m = length params)
      then ret vector
      else raise ImproperBoundsError
  end.

(** Modelled from the spec: the decorator [one_row_params_array] lives
    in [utils.py], which is not among the sources.  The spec has the
    decorated operation work on exactly one row and fail on a table
    that cannot be unwrapped to one row. *)
Definition one_row_params_array {A : Type} (f : params_row -> result A)
    (params : table) : result A :=
  match params with
  | [p] => f p
  | _ => Raise OneRowError
  end.

(* ===================================================================== *)
(** * class LognormalUncertainty *)
(* ===================================================================== *)

(** The dictionary returned by [statistics]. *)
Record stats : Type := mk_stats {
  median : xfloat;
  mode : xfloat;
  mean : xfloat;
  lower : xfloat;
  upper : xfloat
}.

Section LognormalUncertainty.

Context {prim : Lognorm}.
Context {mach : Machine}.

(** [np.random], the default generator. *)
Variable np_random : RandomState.

(** Class attributes and the helper inherited from [UncertaintyBase]. *)
Variable standard_deviations_in_default_range : float.
Variable default_number_points_in_pdf : nat.
Variable set_negative_flag : params_row -> params_row.

(** Lines 29-40. *)
Definition random_variables (params : table) (size : nat)
    (seeded_random : option RandomState) : result matrix :=
  let seeded_random :=
    match seeded_random with
    | Some g => g
    | None => np_random
    end in
  let data :=
    transpose (length params)
      (lognormal seeded_random
         (scale <$> params)  (* Mu *)
         (shape <$> params)  (* Sigma *)
         (size, length params)) in
  negate_masked (negative <$> params) data.

(** The body of the loop of lines 50-55. *)
Definition cdf_row (params : table) (vector : matrix) (row : nat) : result vec :=
  xs <- getitem vector row ;;
  s <- getitem (scale <$> params) row ;;
  sc <- getitem (loc <$> params) row ;;
  Ok ((fun x => lognorm_cdf x s sc) <$> xs).

(** Lines 43-56.  [vector] is the caller's array object; the result
    is a new array, returned by value. *)
Definition cdf (params : table) (vector : ref) : M matrix :=
  vector <~ check_2d_inputs params vector ;;
  v <~ load2 vector ;;
  v' <~ lift (negate_masked (negative <$> params) v) ;;
  _ <~ store vector (Arr2 v') ;;
  lift (for_rows (length params) (cdf_row params v') (zeros_like v')).

(** The body of the loop of lines 62-67. *)
Definition ppf_row (params : table) (percentages : matrix) (row : nat)
  : result vec :=
  qs <- getitem percentages row ;;
  s <- getitem (shape <$> params) row ;;
  sc <- getitem (scale <$> params) row ;;
  Ok ((fun q => lognorm_ppf q s sc) <$> qs).

(** Lines 59-69. *)
Definition ppf (params : table) (percentages : ref) : M matrix :=
  percentages <~ check_2d_inputs params percentages ;;
  p <~ load2 percentages ;;
  results <~ lift (for_rows (length p) (ppf_row params p) (zeros_like p)) ;;
  lift (negate_masked (negative <$> params) results).

(** Lines 73-93, on the unwrapped row.  [sigma], [mu] and the two
    geometric values are Python floats, so [**] and [/] on them raise;
    [np.exp], [+], [-] and [*] do not. *)
Definition statistics_row (transform : bool) (params : params_row)
  : result stats :=
  let params := if transform then set_negative_flag params else params in
  let negative : Z := if negative params then (-1)%Z else 1%Z in
  let geometric_mu := XFloat.np_exp (XFloat.of_float (scale params)) in
  let sigma := XFloat.of_float (shape params) in
  let mu := XFloat.of_float (scale params) in
  let geometric_sigma := XFloat.np_exp sigma in
  sigma_sq <- XFloat.py_pow2 sigma ;;
  half <- XFloat.py_truediv sigma_sq (XFloat.of_Z 2) ;;
  let mean := XFloat.np_exp (XFloat.add mu half) in
  sigma_sq <- XFloat.py_pow2 sigma ;;
  let mode := XFloat.np_exp (XFloat.sub mu sigma_sq) in
  geometric_sigma_sq <- XFloat.py_pow2 geometric_sigma ;;
  ci_95_lower <- XFloat.py_truediv geometric_mu geometric_sigma_sq ;;
  geometric_sigma_sq <- XFloat.py_pow2 geometric_sigma ;;
  let ci_95_upper := XFloat.mul geometric_mu geometric_sigma_sq in
  let '(ci_95_lower, ci_95_upper) :=
    if Z.eqb negative (-1)
    then (ci_95_upper, ci_95_lower)
    else (ci_95_lower, ci_95_upper) in
  Ok {| median := XFloat.mul (XFloat.of_Z negative) geometric_mu;
        mode := XFloat.mul (XFloat.of_Z negative) mode;
        mean := XFloat.mul (XFloat.of_Z negative) mean;
        lower := XFloat.mul (XFloat.of_Z negative) ci_95_lower;
        upper := XFloat.mul (XFloat.of_Z negative) ci_95_upper |}.

Definition statistics (params : table) (transform : bool) : result stats :=
  one_row_params_array (statistics_row transform) params.

(** Lines 101-110: the range graphed when no abscissae are given, as
    the pair [(minimum, maximum)]. *)
Definition default_range (params : params_row) : float * float :=
  let minimum_ :=
    if Float.isnan (minimum params)
    then Float.div (scale params)
           (Float.pow (Float.exp (shape params))
                      standard_deviations_in_default_range)
    else Float.abs (minimum params) in
  let maximum_ :=
    if Float.isnan (maximum params)
    then Float.mul (scale params)
           (Float.pow (Float.exp (shape params))
                      standard_deviations_in_default_range)
    else Float.abs (minimum params) in
  (minimum_, maximum_).

(** Lines 97-122, on the unwrapped row.  The diagnostic [print] of
    line 117 writes to standard output and is not part of the
    returned value. *)
Definition pdf_row (xs : option vec) (params : params_row)
  : result (vec * vec) :=
  let xs :=
    match xs with
    | None =>
        let '(minimum_, maximum_) := default_range params in
        linspace minimum_ maximum_ default_number_points_in_pdf
    | Some xs => xs
    end in
  let ys := (fun x => lognorm_pdf x (shape params) (scale params)) <$> xs in
  let xs := if negative params then Float.neg <$> xs else xs in
  Ok (xs, ys).

Definition pdf (params : table) (xs : option vec) : result (vec * vec) :=
  one_row_params_array (pdf_row xs) params.

(** The cumulative function as the specification words it: the row's
    [shape] in the shape slot and the row's [scale] in the scale
    slot, the pairing [ppf] and [pdf] use. *)
Definition cdf_row_as_specified (params : table) (vector : matrix)
    (row : nat) : result vec :=
  xs <- getitem vector row ;;
  s <- getitem (shape <$> params) row ;;
  sc <- getitem (scale <$> params) row ;;
  Ok ((fun x => lognorm_cdf x s sc) <$> xs).

(** ** Closed forms used in the statements *)

(** Rows of flagged variables negated, the others kept. *)
Definition mirror (params : table) (a : matrix) : matrix :=
  zip_with (fun p (row : vec) => if negative p then Float.neg <$> row else row)
           params a.

(** Row [i] evaluated with the parameters the loop of [cdf] reads. *)
Definition cdf_values (params : table) (a : matrix) : matrix :=
  zip_with (fun p (xs : vec) => (fun x => lognorm_cdf x (scale p) (loc p)) <$> xs)
           params a.

(** Row [i] evaluated with the parameters the loop of [ppf] reads. *)
Definition ppf_values (params : table) (a : matrix) : matrix :=
  zip_with (fun p (qs : vec) => (fun q => lognorm_ppf q (shape p) (scale p)) <$> qs)
           params a.

(** The row a loop over the table writes at index [i]. *)
Definition row_at (f : params_row -> vec -> vec) (params : table)
    (a : matrix) (i : nat) : vec :=
  match params !! i, a !! i with
  | Some p, Some xs => f p xs
  | _, _ => []
  end.

(** [ppf(params, cdf(params, vector))]; the intermediate result is an
    array object of its own. *)
Definition ppf_of_cdf (params : table) (vector : ref) : M matrix :=
  c <~ cdf params vector ;;
  r <~ alloc (Arr2 c) ;;
  ppf params r.

(** [cdf(params, ppf(params, percentages))] *)
Definition cdf_of_ppf (params : table) (percentages : ref) : M matrix :=
  q <~ ppf params percentages ;;
  r <~ alloc (Arr2 q) ;;
  cdf params r.

(** The five numbers of lines 77-84 before the sign is applied:
    [(geometric_mu, mode, mean, ci_95_lower, ci_95_upper)]. *)
Definition statistics_values (params : params_row)
  : result (xfloat * xfloat * xfloat * xfloat * xfloat) :=
  let geometric_mu := XFloat.np_exp (XFloat.of_float (scale params)) in
  let sigma := XFloat.of_float (shape params) in
  let mu := XFloat.of_float (scale params) in
  let geometric_sigma := XFloat.np_exp sigma in
  sigma_sq <- XFloat.py_pow2 sigma ;;
  half <- XFloat.py_truediv sigma_sq (XFloat.of_Z 2) ;;
  geometric_sigma_sq <- XFloat.py_pow2 geometric_sigma ;;
  ci_95_lower <- XFloat.py_truediv geometric_mu geometric_sigma_sq ;;
  Ok (geometric_mu,
      XFloat.np_exp (XFloat.sub mu sigma_sq),
      XFloat.np_exp (XFloat.add mu half),
      ci_95_lower,
      XFloat.mul geometric_mu geometric_sigma_sq).

(** A record with every entry multiplied by -1 and the two bounds
    exchanged. *)
Definition mirrored_stats (s : stats) : stats :=
  {| median := XFloat.mul (XFloat.of_Z (-1)) (median s);
     mode := XFloat.mul (XFloat.of_Z (-1)) (mode s);
     mean := XFloat.mul (XFloat.of_Z (-1)) (mean s);
     lower := XFloat.mul (XFloat.of_Z (-1)) (upper s);
     upper := XFloat.mul (XFloat.of_Z (-1)) (lower s) |}.

(** A field of a row is a positive number. *)
Definition positive (x : float) : Prop := exists r : R, x = Fin r /\ 0 < r.

(** A field of a row is NaN or not above zero. *)
Definition nan_or_le0 (x : float) : Prop :=
  x = NaN \/ exists r : R, x = Fin r /\ r <= 0.

(** The two fields [validate] reports on, with the word that names
    each in an error message and the message raised for it. *)
Inductive field : Type := Scale | Shape.

Definition field_name (f : field) : string :=
  match f with Scale => "scale" | Shape => "shape" end.

Definition field_value (f : field) (p : params_row) : float :=
  match f with Scale => scale p | Shape => shape p end.

Definition field_msg (f : field) : string :=
  match f with Scale => scale_msg | Shape => shape_msg end.

(* =================================================================== *)
(** * Properties *)
(* =================================================================== *)

(** ** Arrays *)

Lemma mask_set_get (f : vec -> vec) (mask : list bool) (a : matrix) :
  length mask = length a ->
  mask_set mask a (f <$> mask_get mask a)
  = zip_with (fun (b : bool) row => if b then f row else row) mask a.
Proof.
  revert a. induction mask as [|b mask IH]; intros [|row a] Hlen;
    simpl in *; try congruence.
  destruct b; simpl; rewrite IH by congruence; reflexivity.
Qed.

Lemma negate_masked_mirror (params : table) (a : matrix) :
  length a = length params ->
  negate_masked (negative <$> params) a = Ok (mirror params a).
Proof.
  intros Hlen. unfold negate_masked, neg_rows, mirror.
  rewrite length_fmap. destruct (decide _) as [_|Hne]; [|congruence].
  rewrite mask_set_get by (rewrite length_fmap; congruence).
  rewrite zip_with_fmap_l. reflexivity.
Qed.

Lemma length_mirror (params : table) (a : matrix) :
  length a = length params -> length (mirror params a) = length params.
Proof. intros H. unfold mirror. rewrite length_zip_with. lia. Qed.

Lemma mirror_lookup (params : table) (a : matrix) (i : nat) p row :
  params !! i = Some p -> a !! i = Some row ->
  mirror params a !! i = Some (if negative p then Float.neg <$> row else row).
Proof.
  intros Hp Hr. unfold mirror. rewrite lookup_zip_with, Hp. simpl.
  rewrite Hr. reflexivity.
Qed.

Lemma for_rows_ok (n : nat) (body : nat -> result vec) (g : nat -> vec)
    (results : matrix) :
  (forall i, (i < n)%nat -> body i = Ok (g i)) ->
  (n <= length results)%nat ->
  for_rows n body results = Ok ((g <$> seq 0 n) ++ drop n results).
Proof.
  unfold for_rows. induction n as [|n IH]; intros Hbody Hlen.
  - simpl. rewrite drop_0. reflexivity.
  - rewrite seq_S, foldl_app. simpl.
    rewrite IH by (intros; try apply Hbody; lia).
    simpl. rewrite Hbody by lia. simpl.
    unfold setrow. rewrite length_app, length_fmap, length_seq, length_drop.
    destruct (decide _) as [_|Hn]; [|lia].
    f_equal. rewrite fmap_app. simpl.
    rewrite insert_app_r_alt by (rewrite length_fmap, length_seq; lia).
    rewrite length_fmap, length_seq, Nat.sub_diag.
    destruct (drop n results) as [|r rest] eqn:Hd.
    + apply (f_equal length) in Hd. rewrite length_drop in Hd. simpl in Hd. lia.
    + simpl. rewrite <- app_assoc. simpl. do 2 f_equal.
      replace (S n) with (n + 1)%nat by lia.
      rewrite <- drop_drop, Hd. reflexivity.
Qed.

Lemma row_at_seq (f : params_row -> vec -> vec) (params : table) (a : matrix) :
  length a = length params ->
  row_at f params a <$> seq 0 (length params) = zip_with f params a.
Proof.
  intros Hlen. apply list_eq. intros i.
  rewrite list_lookup_fmap, lookup_zip_with. unfold row_at.
  destruct (decide (i < length params)%nat) as [Hi|Hi].
  - rewrite lookup_seq_lt by exact Hi. simpl.
    destruct (lookup_lt_is_Some_2 params i Hi) as [p Hp].
    destruct (lookup_lt_is_Some_2 a i ltac:(lia)) as [xs Hxs].
    rewrite Hp, Hxs. reflexivity.
  - rewrite lookup_seq_ge by lia. simpl.
    rewrite (lookup_ge_None_2 params i) by lia. reflexivity.
Qed.

Lemma for_rows_zip (f : params_row -> vec -> vec) (body : nat -> result vec)
    (params : table) (a : matrix) :
  length a = length params ->
  (forall i p xs, params !! i = Some p -> a !! i = Some xs ->
                  body i = Ok (f p xs)) ->
  for_rows (length params) body (zeros_like a) = Ok (zip_with f params a).
Proof.
  intros Hlen Hbody.
  rewrite (for_rows_ok _ _ (row_at f params a)).
  - rewrite row_at_seq by exact Hlen.
    rewrite drop_ge by (unfold zeros_like; rewrite length_fmap; lia).
    rewrite app_nil_r. reflexivity.
  - intros i Hi. unfold row_at.
    destruct (lookup_lt_is_Some_2 params i Hi) as [p Hp].
    destruct (lookup_lt_is_Some_2 a i ltac:(lia)) as [xs Hxs].
    rewrite Hp, Hxs. eauto.
  - unfold zeros_like. rewrite length_fmap. lia.
Qed.

Lemma cdf_loop (params : table) (a : matrix) :
  length a = length params ->
  for_rows (length params) (cdf_row params a) (zeros_like a)
  = Ok (cdf_values params a).
Proof.
  intros Hlen. apply for_rows_zip; [exact Hlen|].
  intros i p xs Hp Hxs. unfold cdf_row, getitem.
  rewrite Hxs, !list_lookup_fmap, Hp. reflexivity.
Qed.

Lemma ppf_loop (params : table) (a : matrix) :
  length a = length params ->
  for_rows (length a) (ppf_row params a) (zeros_like a)
  = Ok (ppf_values params a).
Proof.
  intros Hlen. rewrite Hlen. apply for_rows_zip; [exact Hlen|].
  intros i p xs Hp Hxs. unfold ppf_row, getitem.
  rewrite Hxs, !list_lookup_fmap, Hp. reflexivity.
Qed.

(** ** Running [cdf] and [ppf] on a two-dimensional array object *)

Lemma check_2d_inputs_same (params : table) (vector : ref) (h : heap) m :
  h !! vector = Some (Arr2 m) -> length m = length params ->
  check_2d_inputs params vector h = (Ok vector, h).
Proof.
  intros Hv Hlen. unfold check_2d_inputs, bindM, load. rewrite Hv.
  destruct (decide _); [reflexivity | congruence].
Qed.

Lemma check_2d_inputs_mismatch (params : table) (vector : ref) (h : heap) m :
  h !! vector = Some (Arr2 m) -> length m <> length params ->
  check_2d_inputs params vector h = (Raise ImproperBoundsError, h).
Proof.
  intros Hv Hlen. unfold check_2d_inputs, bindM, load. rewrite Hv.
  destruct (decide _); [congruence | reflexivity].
Qed.

Lemma cdf_run (params : table) (vector : ref) (h : heap) m :
  h !! vector = Some (Arr2 m) -> length m = length params ->
  cdf params vector h
  = (Ok (cdf_values params (mirror params m)),
     <[vector := Arr2 (mirror params m)]> h).
Proof.
  intros Hv Hlen. unfold cdf, bindM at 1.
  rewrite (check_2d_inputs_same _ _ _ _ Hv Hlen).
  unfold bindM, load2, bindM, load, lift, store, ret. rewrite Hv.
  rewrite negate_masked_mirror by exact Hlen.
  rewrite cdf_loop by (apply length_mirror; exact Hlen).
  reflexivity.
Qed.

Lemma ppf_run (params : table) (percentages : ref) (h : heap) m :
  h !! percentages = Some (Arr2 m) -> length m = length params ->
  ppf params percentages h
  = (Ok (mirror params (ppf_values params m)), h).
Proof.
  intros Hv Hlen. unfold ppf, bindM at 1.
  rewrite (check_2d_inputs_same _ _ _ _ Hv Hlen).
  unfold bindM, load2, bindM, load, lift, ret. rewrite Hv.
  rewrite ppf_loop by exact Hlen.
  rewrite negate_masked_mirror; [reflexivity|].
  unfold ppf_values. rewrite length_zip_with. lia.
Qed.

(** ** validate *)

Lemma truthy_np_sum {A : Type} (f : A -> bool) (l : list A) :
  truthy (np_sum (f <$> l)) = true <-> Exists (fun x => f x = true) l.
Proof.
  unfold truthy, np_sum. induction l as [|x l IH]; simpl.
  - split; [discriminate | intros H; inversion H].
  - rewrite filter_cons. rewrite Exists_cons.
    destruct (decide (f x = true)) as [Hx|Hx]; simpl.
    + split; [intros _; left; exact Hx | reflexivity].
    + rewrite IH. split; [intros H; right; exact H | intros [H|H]; [contradiction|exact H]].
Qed.

Lemma isnan_or_le0 (x : float) :
  Float.isnan x = true \/ Float.le x Float.zero = true <-> nan_or_le0 x.
Proof.
  unfold nan_or_le0. destruct x as [|r]; simpl.
  - split; [intros _; left; reflexivity | intros _; left; reflexivity].
  - rewrite bool_decide_eq_true. split.
    + intros [H|H]; [discriminate|]. right. exists r. split; [reflexivity|exact H].
    + intros [H|(r' & Hr & Hle)]; [discriminate|]. inversion Hr; subst. right. exact Hle.
Qed.

Lemma positive_not_nan_or_le0 (x : float) : positive x <-> ~ nan_or_le0 x.
Proof.
  unfold positive, nan_or_le0. destruct x as [|r].
  - split; [intros (r & Hr & _); discriminate | intros H; exfalso; apply H; left; reflexivity].
  - split.
    + intros (r' & Hr & Hpos) [H|(r'' & Hr' & Hle)]; [discriminate|].
      inversion Hr; inversion Hr'; subst. lra.
    + intros H. exists r. split; [reflexivity|].
      destruct (Rlt_le_dec 0 r) as [Hlt|Hle]; [exact Hlt|].
      exfalso. apply H. right. exists r. split; [reflexivity|exact Hle].
Qed.

Lemma nan_or_nonpositive_true (col : list float) :
  nan_or_nonpositive col = true <-> Exists nan_or_le0 col.
Proof.
  unfold nan_or_nonpositive. rewrite orb_true_iff, !truthy_np_sum. split.
  - intros [H|H]; apply Exists_exists in H as (x & Hin & Hx);
      apply Exists_exists; exists x; (split; [exact Hin|]);
      apply isnan_or_le0; [left|right]; exact Hx.
  - intros H. apply Exists_exists in H as (x & Hin & Hx).
    apply isnan_or_le0 in Hx as [Hx|Hx]; [left|right];
      apply Exists_exists; exists x; split; assumption.
Qed.

Lemma nan_or_nonpositive_false (col : list float) :
  nan_or_nonpositive col = false <-> Forall positive col.
Proof.
  rewrite <- not_true_iff_false, nan_or_nonpositive_true. split.
  - intros Hn. apply Forall_forall. intros x Hin.
    apply positive_not_nan_or_le0. intros Hbad. apply Hn.
    apply Exists_exists. exists x. split; assumption.
  - intros Hall Hex. apply Exists_exists in Hex as (x & Hin & Hbad).
    rewrite Forall_forall in Hall.
    exact (proj1 (positive_not_nan_or_le0 x) (Hall x Hin) Hbad).
Qed.

Lemma validate_cases (params : table) :
  validate params =
    if nan_or_nonpositive (scale <$> params)
    then Raise (InvalidParamsError (field_msg Scale))
    else if nan_or_nonpositive (shape <$> params)
         then Raise (InvalidParamsError (field_msg Shape))
         else Ok tt.
Proof. reflexivity. Qed.

(** C3.  [validate] passes every table whose rows all have a positive
    [scale] and a positive [shape].  A table with a row whose [scale]
    or [shape] is NaN or not above zero is rejected with
    [InvalidParamsError]: the message is the one of [scale] as soon
    as some [scale] is offending, the one of [shape] when only
    [shape] values are, and each message names its own field and not
    the other. *)
Theorem validate_accepts_exactly_positive_rows (params : table) :
  (Forall (fun p => positive (scale p) /\ positive (shape p)) params ->
   validate params = Ok tt)
  /\ (Exists (fun p => nan_or_le0 (scale p)) params ->
      validate params = Raise (InvalidParamsError (field_msg Scale)))
  /\ (Forall (fun p => positive (scale p)) params ->
      Exists (fun p => nan_or_le0 (shape p)) params ->
      validate params = Raise (InvalidParamsError (field_msg Shape)))
  /\ (Exists (fun p => nan_or_le0 (scale p) \/ nan_or_le0 (shape p)) params ->
      exists f : field,
        validate params = Raise (InvalidParamsError (field_msg f))
        /\ Exists (fun p => nan_or_le0 (field_value f p)) params
        /\ mentions (field_name f) (field_msg f) = true
        /\ forall f' : field,
             f' <> f -> mentions (field_name f') (field_msg f) = false).
Proof.
  assert (Hscale_bad : Exists (fun p => nan_or_le0 (scale p)) params ->
            validate params = Raise (InvalidParamsError (field_msg Scale))).
  { intros H. rewrite validate_cases.
    rewrite (proj2 (nan_or_nonpositive_true _)); [reflexivity|].
    apply Exists_fmap. exact H. }
  assert (Hshape_bad : Forall (fun p => positive (scale p)) params ->
            Exists (fun p => nan_or_le0 (shape p)) params ->
            validate params = Raise (InvalidParamsError (field_msg Shape))).
  { intros Hs H. rewrite validate_cases.
    rewrite (proj2 (nan_or_nonpositive_false _)) by (apply Forall_fmap; exact Hs).
    rewrite (proj2 (nan_or_nonpositive_true _)); [reflexivity|].
    apply Exists_fmap. exact H. }
  split; [|split; [exact Hscale_bad | split; [exact Hshape_bad|]]].
  - intros Hall. rewrite validate_cases.
    rewrite (proj2 (nan_or_nonpositive_false (scale <$> params))).
    + rewrite (proj2 (nan_or_nonpositive_false (shape <$> params))); [reflexivity|].
      apply Forall_fmap. eapply Forall_impl; [exact Hall|]. intros p [_ H]. exact H.
    + apply Forall_fmap. eapply Forall_impl; [exact Hall|]. intros p [H _]. exact H.
  - intros Hbad.
    destruct (nan_or_nonpositive (scale <$> params)) eqn:Hs.
    + rewrite nan_or_nonpositive_true, Exists_fmap in Hs.
      exists Scale. split; [exact (Hscale_bad Hs)|]. split; [exact Hs|].
      split; [reflexivity|]. intros [] Hne; [congruence | reflexivity].
    + rewrite nan_or_nonpositive_false, Forall_fmap in Hs.
      assert (Hsh : Exists (fun p => nan_or_le0 (shape p)) params).
      { apply Exists_exists in Hbad as (p & Hin & [Hp|Hp]).
        - rewrite Forall_forall in Hs.
          exfalso. exact (proj1 (positive_not_nan_or_le0 _) (Hs p Hin) Hp).
        - apply Exists_exists. exists p. split; assumption. }
      exists Shape. split; [exact (Hshape_bad Hs Hsh)|]. split; [exact Hsh|].
      split; [reflexivity|]. intros [] Hne; [reflexivity | congruence].
Qed.

(** C10.  The outcome of [validate] is a function of the [scale] and
    [shape] columns alone: two tables with the same two columns are
    both accepted or both rejected, with the same error.  In
    particular a row with positive [scale] and [shape] is accepted
    whatever its [loc] (NaN and non-positive values included), while
    [cdf] hands that [loc] to the scale slot of the primitive. *)
Theorem validate_reads_only_scale_and_shape :
  (forall t1 t2 : table,
      scale <$> t1 = scale <$> t2 -> shape <$> t1 = shape <$> t2 ->
      validate t1 = validate t2)
  /\ (forall (p : params_row) (l : float),
        positive (scale p) -> positive (shape p) ->
        validate [with_loc l p] = Ok tt)
  /\ (forall (p : params_row) (l x : float) (vector : ref) (h : heap),
        h !! vector = Some (Arr2 [[x]]) -> negative p = false ->
        fst (cdf [with_loc l p] vector h)
        = Ok [[lognorm_cdf x (scale p) l]]).
Proof.
  split; [|split].
  - intros t1 t2 Hsc Hsh. rewrite !validate_cases, Hsc, Hsh. reflexivity.
  - intros p l Hsc Hsh. rewrite validate_cases. simpl.
    rewrite (proj2 (nan_or_nonpositive_false [scale p]))
      by (repeat constructor; exact Hsc).
    rewrite (proj2 (nan_or_nonpositive_false [shape p]))
      by (repeat constructor; exact Hsh).
    reflexivity.
  - intros p l x vector h Hv Hneg.
    rewrite (cdf_run _ _ _ _ Hv) by reflexivity.
    simpl. rewrite Hneg. reflexivity.
Qed.

Lemma length_cdf_values (params : table) (a : matrix) :
  length a = length params -> length (cdf_values params a) = length params.
Proof. intros H. unfold cdf_values. rewrite length_zip_with. lia. Qed.

Lemma length_ppf_values (params : table) (a : matrix) :
  length a = length params -> length (ppf_values params a) = length params.
Proof. intros H. unfold ppf_values. rewrite length_zip_with. lia. Qed.

Lemma cdf_values_lookup (params : table) (a : matrix) (i : nat) p xs :
  params !! i = Some p -> a !! i = Some xs ->
  cdf_values params a !! i
  = Some ((fun x => lognorm_cdf x (scale p) (loc p)) <$> xs).
Proof.
  intros Hp Hxs. unfold cdf_values. rewrite lookup_zip_with, Hp. simpl.
  rewrite Hxs. reflexivity.
Qed.

Lemma cdf_values_with_shape (f : params_row -> float) (params : table) (a : matrix) :
  cdf_values ((fun p => with_shape (f p) p) <$> params) a = cdf_values params a.
Proof. unfold cdf_values. rewrite zip_with_fmap_l. reflexivity. Qed.

Lemma mirror_with_shape (f : params_row -> float) (params : table) (a : matrix) :
  mirror ((fun p => with_shape (f p) p) <$> params) a = mirror params a.
Proof. unfold mirror. rewrite zip_with_fmap_l. reflexivity. Qed.

(** [cdf] and [ppf] on a one-row table that is not mirrored, at one
    point. *)
Lemma cdf_at_probe (vector : ref) (h : heap) (x : float) (p : params_row) :
  h !! vector = Some (Arr2 [[x]]) -> negative p = false ->
  cdf [p] vector h
  = (Ok [[lognorm_cdf x (scale p) (loc p)]], <[vector := Arr2 [[x]]]> h).
Proof.
  intros Hv Hneg. rewrite (cdf_run _ _ _ _ Hv) by reflexivity.
  simpl. rewrite Hneg. reflexivity.
Qed.

Lemma ppf_at_probe (percentages : ref) (h : heap) (q : float) (p : params_row) :
  h !! percentages = Some (Arr2 [[q]]) -> negative p = false ->
  ppf [p] percentages h = (Ok [[lognorm_ppf q (shape p) (scale p)]], h).
Proof.
  intros Hv Hneg. rewrite (ppf_run _ _ _ _ Hv) by reflexivity.
  simpl. rewrite Hneg. reflexivity.
Qed.

Lemma alloc_fresh (a : ndarray) (h : heap) :
  exists r, alloc a h = (Ok r, <[r := a]> h) /\ h !! r = None.
Proof.
  exists (fresh (dom h)). split; [reflexivity|].
  apply not_elem_of_dom. apply is_fresh.
Qed.

(** C2.  Row [i] of the result of [cdf] is the primitive applied to
    the (mirrored) values of row [i] with the row's [scale] in the
    shape slot and the row's [loc] in the scale slot; the row's
    [shape] is not read at all.  On the table [loc = 2], [scale = 1],
    [shape = 1] at the point 2 the result is one half, which the
    pairing of the specification ([shape] and [scale], as in [ppf]
    and [pdf]) does not give. *)
Theorem cdf_passes_scale_as_shape_and_loc_as_scale :
  LognormLaws prim ->
  (forall (params : table) (vector : ref) (h : heap) (m : matrix),
      h !! vector = Some (Arr2 m) -> length m = length params ->
      exists out : matrix,
        fst (cdf params vector h) = Ok out
        /\ length out = length params
        /\ (forall i p row, params !! i = Some p -> m !! i = Some row ->
              out !! i
              = Some ((fun x => lognorm_cdf x (scale p) (loc p))
                        <$> (if negative p then Float.neg <$> row else row)))
        /\ (forall f : params_row -> float,
              fst (cdf ((fun p => with_shape (f p) p) <$> params) vector h)
              = Ok out))
  /\ (forall (vector : ref) (h : heap),
        h !! vector = Some (Arr2 [[Fin 2]]) ->
        fst (cdf [Examples.probe] vector h) = Ok [[Fin (1 / 2)]]
        /\ for_rows 1 (cdf_row_as_specified [Examples.probe] [[Fin 2]])
                    (zeros_like [[Fin 2]])
           <> Ok [[Fin (1 / 2)]]).
Proof.
  intros Laws. split.
  - intros params vector h m Hv Hlen.
    exists (cdf_values params (mirror params m)).
    rewrite (cdf_run _ _ _ _ Hv Hlen). simpl.
    split; [reflexivity|]. split; [|split].
    + apply length_cdf_values, length_mirror, Hlen.
    + intros i p row Hp Hrow. apply cdf_values_lookup; [exact Hp|].
      apply mirror_lookup; assumption.
    + intros f. rewrite (cdf_run _ _ _ _ Hv) by (rewrite length_fmap; exact Hlen).
      simpl. rewrite mirror_with_shape, cdf_values_with_shape. reflexivity.
  - intros vector h Hv. split.
    + rewrite (cdf_at_probe _ _ _ _ Hv) by reflexivity. simpl.
      rewrite cdf_at_scale by lra. reflexivity.
    + simpl. intros Heq. injection Heq as Heq.
      apply cdf_half_only_at_scale in Heq; lra.
Qed.

(** C6.  On a two-dimensional array object with as many rows as the
    table, [cdf] leaves the object itself changed: each row of a
    flagged variable is negated, each other row is kept, the
    returned values are computed from the object as changed, and no
    other object of the heap is touched. *)
Theorem cdf_negates_flagged_rows_in_place
    (params : table) (vector : ref) (h : heap) (m : matrix) :
  h !! vector = Some (Arr2 m) -> length m = length params ->
  exists m' : matrix,
    snd (cdf params vector h) !! vector = Some (Arr2 m')
    /\ length m' = length m
    /\ (forall i p row, params !! i = Some p -> m !! i = Some row ->
          m' !! i = Some (if negative p then Float.neg <$> row else row))
    /\ fst (cdf params vector h) = Ok (cdf_values params m')
    /\ (forall r : ref, r <> vector ->
          snd (cdf params vector h) !! r = h !! r).
Proof.
  intros Hv Hlen. exists (mirror params m).
  rewrite (cdf_run _ _ _ _ Hv Hlen). simpl.
  split; [apply lookup_insert_eq|]. split; [|split; [|split]].
  - rewrite length_mirror; congruence.
  - intros i p row Hp Hrow. apply mirror_lookup; assumption.
  - reflexivity.
  - intros r Hr. apply lookup_insert_ne. congruence.
Qed.

(** C8.  A two-dimensional argument whose row count differs from the
    table's is rejected by [cdf] and by [ppf] with the shape/bounds
    error; nothing is computed and no array is changed. *)
Theorem cdf_rejects_row_count_mismatch
    (params : table) (vector : ref) (h : heap) (m : matrix) :
  h !! vector = Some (Arr2 m) -> length m <> length params ->
  cdf params vector h = (Raise ImproperBoundsError, h)
  /\ ppf params vector h = (Raise ImproperBoundsError, h).
Proof.
  intros Hv Hlen. split.
  - unfold cdf, bindM at 1.
    rewrite (check_2d_inputs_mismatch _ _ _ _ Hv Hlen). reflexivity.
  - unfold ppf, bindM at 1.
    rewrite (check_2d_inputs_mismatch _ _ _ _ Hv Hlen). reflexivity.
Qed.

Lemma ppf_of_cdf_run (p : params_row) (vector : ref) (h : heap) (x : float) :
  h !! vector = Some (Arr2 [[x]]) -> negative p = false ->
  fst (ppf_of_cdf [p] vector h)
  = Ok [[lognorm_ppf (lognorm_cdf x (scale p) (loc p)) (shape p) (scale p)]].
Proof.
  intros Hv Hneg. unfold ppf_of_cdf, bindM.
  rewrite (cdf_at_probe _ _ _ _ Hv Hneg). unfold alloc.
  erewrite ppf_at_probe; [reflexivity | apply lookup_insert_eq | exact Hneg].
Qed.

Lemma cdf_of_ppf_run (p : params_row) (percentages : ref) (h : heap) (q : float) :
  h !! percentages = Some (Arr2 [[q]]) -> negative p = false ->
  fst (cdf_of_ppf [p] percentages h)
  = Ok [[lognorm_cdf (lognorm_ppf q (shape p) (scale p)) (scale p) (loc p)]].
Proof.
  intros Hv Hneg. unfold cdf_of_ppf, bindM.
  rewrite (ppf_at_probe _ _ _ _ Hv Hneg). unfold alloc.
  erewrite cdf_at_probe; [reflexivity | apply lookup_insert_eq | exact Hneg].
Qed.

(** C1.  On the one-row table [loc = 2], [scale = 1], [shape = 1],
    not mirrored, the round trip does not come back: [ppf] of [cdf]
    at the point 2 of the support is 1, and [cdf] of [ppf] at the
    probability one half is not one half.  [cdf] evaluates the
    primitive with [(scale, loc)] where [ppf] uses [(shape, scale)]. *)
Theorem round_trip_breaks_on_mismatched_slots :
  LognormLaws prim ->
  forall (vector : ref) (h : heap),
    (h !! vector = Some (Arr2 [[Fin 2]]) ->
     fst (ppf_of_cdf [Examples.probe] vector h) = Ok [[Fin 1]])
    /\ (h !! vector = Some (Arr2 [[Fin (1 / 2)]]) ->
        exists y : float,
          fst (cdf_of_ppf [Examples.probe] vector h) = Ok [[y]]
          /\ y <> Fin (1 / 2)).
Proof.
  intros Laws vector h. split; intros Hv.
  - rewrite (ppf_of_cdf_run _ _ _ _ Hv) by reflexivity. simpl.
    rewrite cdf_at_scale by lra. rewrite ppf_half by lra. reflexivity.
  - rewrite (cdf_of_ppf_run _ _ _ _ Hv) by reflexivity. simpl.
    rewrite ppf_half by lra. eexists. split; [reflexivity|].
    intros Heq. apply cdf_half_only_at_scale in Heq; lra.
Qed.

(** ** pdf *)

(** C4.  Without abscissae [pdf] graphs [linspace] over
    [default_range].  When the row's [maximum] and [minimum] are both
    set, the upper end of that range is [abs(minimum)], the value
    of the lower end, and not [abs(maximum)] whenever the two
    differ; when [maximum] is unset the upper end is
    [scale * exp(shape) ** standard_deviations_in_default_range]. *)
Theorem pdf_default_upper_bound (p : params_row) :
  pdf [p] None
  = (let xs := linspace (fst (default_range p)) (snd (default_range p))
                        default_number_points_in_pdf in
     Ok (if negative p then Float.neg <$> xs else xs,
         (fun x => lognorm_pdf x (shape p) (scale p)) <$> xs))
  /\ (Float.isnan (maximum p) = false -> Float.isnan (minimum p) = false ->
      snd (default_range p) = Float.abs (minimum p)
      /\ fst (default_range p) = Float.abs (minimum p))
  /\ (forall mn mx : R,
        minimum p = Fin mn -> maximum p = Fin mx -> Rabs mn <> Rabs mx ->
        snd (default_range p) <> Float.abs (maximum p))
  /\ (Float.isnan (maximum p) = true ->
      snd (default_range p)
      = Float.mul (scale p)
          (Float.pow (Float.exp (shape p))
                     standard_deviations_in_default_range)).
Proof.
  split; [|split; [|split]].
  - unfold pdf, one_row_params_array, pdf_row.
    destruct (default_range p) as [lo hi]. reflexivity.
  - intros Hmax Hmin. unfold default_range. rewrite Hmax, Hmin.
    split; reflexivity.
  - intros mn mx Hmin Hmax Hne. unfold default_range.
    rewrite Hmin, Hmax. simpl. intros Heq. injection Heq as Heq.
    contradiction.
  - intros Hmax. unfold default_range. rewrite Hmax. reflexivity.
Qed.

(** ** random_variables *)

Lemma omap_total_lookup {A B : Type} (f : A -> option B) (l : list A) (j : nat) :
  Forall (fun x => is_Some (f x)) l -> omap f l !! j = l !! j ≫= f.
Proof.
  intros Hall. revert j. induction Hall as [|x l [y Hy] _ IH]; intros j.
  - reflexivity.
  - simpl. rewrite Hy. destruct j as [|j]; simpl.
    + rewrite Hy. reflexivity.
    + apply IH.
Qed.

Lemma omap_total_length {A B : Type} (f : A -> option B) (l : list A) :
  Forall (fun x => is_Some (f x)) l -> length (omap f l) = length l.
Proof.
  induction 1 as [|x l [y Hy] _ IH]; simpl; [reflexivity|].
  rewrite Hy. simpl. f_equal. exact IH.
Qed.

Lemma transpose_lookup (ncols : nat) (a : matrix) (i : nat) :
  (i < ncols)%nat ->
  transpose ncols a !! i = Some (omap (fun row : vec => row !! i) a).
Proof.
  intros Hi. unfold transpose.
  rewrite list_lookup_fmap, lookup_seq_lt by exact Hi. reflexivity.
Qed.

Lemma validate_ok_positive (params : table) :
  validate params = Ok tt ->
  Forall positive (scale <$> params) /\ Forall positive (shape <$> params).
Proof.
  rewrite validate_cases.
  destruct (nan_or_nonpositive (scale <$> params)) eqn:Hsc; [discriminate|].
  destruct (nan_or_nonpositive (shape <$> params)) eqn:Hsh; [discriminate|].
  intros _. split; apply nan_or_nonpositive_false; assumption.
Qed.

(** C7.  [random_variables] returns one row per table row, each of
    length [size].  Entry [(i, j)] is draw [(j, i)] of the generator
    called with the [scale] column as mean and the [shape] column as
    sigma, both as they stand in the table; for a row flagged
    [negative] it is that draw multiplied by -1, and on a table that
    passes [validate] the draw so negated is positive. *)
Theorem random_variables_flips_sign_after_sampling
    (params : table) (size : nat) (seeded_random : option RandomState) :
  let g := match seeded_random with Some g => g | None => np_random end in
  let draws :=
    lognormal g (scale <$> params) (shape <$> params) (size, length params) in
  RandomStateLaws g ->
  exists data : matrix,
    random_variables params size seeded_random = Ok data
    /\ length data = length params
    /\ Forall (fun row : vec => length row = size) data
    /\ (forall i j p, params !! i = Some p -> (j < size)%nat ->
          exists x : float,
            draws !! j ≫= (fun d : vec => d !! i) = Some x
            /\ data !! i ≫= (fun row : vec => row !! j)
               = Some (if negative p then Float.neg x else x)
            /\ (validate params = Ok tt -> Float.lt Float.zero x = true)).
Proof.
  intros g draws Laws.
  assert (Hrows : length draws = size) by apply (lognormal_rows g Laws).
  assert (Hcols : forall d, d ∈ draws -> length d = length params)
    by apply (lognormal_cols g Laws).
  assert (Htotal : forall i, (i < length params)%nat ->
            Forall (fun row : vec => is_Some (row !! i)) draws).
  { intros i Hi. apply Forall_forall. intros d Hd.
    apply lookup_lt_is_Some_2. rewrite (Hcols d Hd). exact Hi. }
  assert (Hlen : length (transpose (length params) draws) = length params).
  { unfold transpose. rewrite length_fmap, length_seq. reflexivity. }
  exists (mirror params (transpose (length params) draws)).
  split; [|split; [|split]].
  - unfold random_variables. fold g. fold draws.
    apply negate_masked_mirror. exact Hlen.
  - apply length_mirror. exact Hlen.
  - apply Forall_forall. intros row Hrow.
    apply list_elem_of_lookup in Hrow as [i Hi].
    assert (Hlt : (i < length params)%nat).
    { apply lookup_lt_Some in Hi.
      rewrite length_mirror in Hi by exact Hlen. exact Hi. }
    destruct (lookup_lt_is_Some_2 params i Hlt) as [p Hp].
    rewrite (mirror_lookup _ _ _ _ _ Hp (transpose_lookup _ draws _ Hlt)) in Hi.
    injection Hi as <-.
    destruct (negative p); rewrite ?length_fmap, omap_total_length, Hrows;
      auto.
  - intros i j p Hp Hj.
    assert (Hlt : (i < length params)%nat) by (eapply lookup_lt_Some; exact Hp).
    destruct (lookup_lt_is_Some_2 draws j ltac:(lia)) as [d Hd].
    assert (Hin : d ∈ draws) by (eapply list_elem_of_lookup_2; exact Hd).
    destruct (lookup_lt_is_Some_2 d i ltac:(rewrite (Hcols d Hin); lia)) as [x Hx].
    exists x. split; [rewrite Hd; exact Hx|]. split.
    + rewrite (mirror_lookup _ _ _ _ _ Hp (transpose_lookup _ draws _ Hlt)).
      simpl.
      assert (Hcol : omap (fun row : vec => row !! i) draws !! j = Some x).
      { rewrite omap_total_lookup by auto. rewrite Hd. exact Hx. }
      destruct (negative p); [|exact Hcol].
      rewrite list_lookup_fmap, Hcol. reflexivity.
    + intros Hvalid. apply validate_ok_positive in Hvalid as [Hsc Hsh].
      eapply (lognormal_positive g Laws); [| |exact Hin|].
      * eapply Forall_impl; [exact Hsc|].
        intros m (r & -> & _). reflexivity.
      * eapply Forall_impl; [exact Hsh|].
        intros s (r & -> & Hr). simpl. apply bool_decide_eq_true_2. exact Hr.
      * eapply list_elem_of_lookup_2. exact Hx.
Qed.

(* ===================================================================== *)
(** * Further properties of the class *)
(* ===================================================================== *)

(** ** Sign mirroring of arrays *)

Lemma neg_involutive (x : float) : Float.neg (Float.neg x) = x.
Proof.
  destruct x as [|r]; [reflexivity|].
  unfold Float.neg, Float.minus_one. simpl. f_equal. lra.
Qed.

Lemma neg_row_involutive (row : vec) : Float.neg <$> (Float.neg <$> row) = row.
Proof.
  induction row as [|x row IH]; [reflexivity|].
  simpl. rewrite neg_involutive. f_equal. exact IH.
Qed.

Lemma mirror_involutive (params : table) (a : matrix) :
  length a = length params -> mirror params (mirror params a) = a.
Proof.
  unfold mirror. revert a.
  induction params as [|p params IH]; intros [|row a] Hlen;
    simpl in *; try congruence.
  rewrite IH by congruence.
  destruct (negative p); [rewrite neg_row_involutive|]; reflexivity.
Qed.

Lemma mirror_unflagged (params : table) (a : matrix) :
  Forall (fun p => negative p = false) params ->
  length a = length params -> mirror params a = a.
Proof.
  unfold mirror. intros Hall. revert a.
  induction Hall as [|p params Hp _ IH]; intros [|row a] Hlen;
    simpl in *; try congruence.
  rewrite Hp, IH by congruence. reflexivity.
Qed.

Lemma mirror_all_flagged (params : table) (a : matrix) :
  length a = length params ->
  mirror (with_negative true <$> params) a = neg_rows a.
Proof.
  unfold mirror, neg_rows. revert a.
  induction params as [|p params IH]; intros [|row a] Hlen;
    simpl in *; try congruence.
  rewrite IH by congruence. reflexivity.
Qed.

Lemma mirror_none_flagged (params : table) (a : matrix) :
  length a = length params ->
  mirror (with_negative false <$> params) a = a.
Proof.
  intros Hlen. apply mirror_unflagged.
  - apply Forall_fmap, Forall_forall. intros p _. reflexivity.
  - rewrite length_fmap. exact Hlen.
Qed.

Lemma cdf_values_with_negative (b : bool) (params : table) (a : matrix) :
  cdf_values (with_negative b <$> params) a = cdf_values params a.
Proof. unfold cdf_values. rewrite zip_with_fmap_l. reflexivity. Qed.

Lemma ppf_values_with_negative (b : bool) (params : table) (a : matrix) :
  ppf_values (with_negative b <$> params) a = ppf_values params a.
Proof. unfold ppf_values. rewrite zip_with_fmap_l. reflexivity. Qed.

Lemma ppf_values_lookup (params : table) (a : matrix) (i : nat) p qs :
  params !! i = Some p -> a !! i = Some qs ->
  ppf_values params a !! i
  = Some ((fun q => lognorm_ppf q (shape p) (scale p)) <$> qs).
Proof.
  intros Hp Hqs. unfold ppf_values. rewrite lookup_zip_with, Hp. simpl.
  rewrite Hqs. reflexivity.
Qed.

(** ** ppf *)

(** X1.  On a two-dimensional array object with as many rows as the
    table, [ppf] returns one row per table row and leaves the heap,
    the caller's array included, exactly as it was.  Entry [j] of row
    [i] is the primitive's quantile of the given probability with the
    row's [shape] in the shape slot and the row's [scale] in the scale
    slot, multiplied by -1 when the row is flagged [negative]. *)
Theorem ppf_reads_shape_and_scale_and_keeps_heap
    (params : table) (percentages : ref) (h : heap) (m : matrix) :
  h !! percentages = Some (Arr2 m) -> length m = length params ->
  exists out : matrix,
    ppf params percentages h = (Ok out, h)
    /\ length out = length params
    /\ (forall i p qs, params !! i = Some p -> m !! i = Some qs ->
          out !! i
          = Some ((fun q =>
                     let y := lognorm_ppf q (shape p) (scale p) in
                     if negative p then Float.neg y else y) <$> qs)).
Proof.
  intros Hv Hlen. exists (mirror params (ppf_values params m)).
  split; [apply (ppf_run _ _ _ _ Hv Hlen)|]. split.
  - apply length_mirror, length_ppf_values, Hlen.
  - intros i p qs Hp Hqs.
    rewrite (mirror_lookup _ _ _ _ _ Hp (ppf_values_lookup _ _ _ _ _ Hp Hqs)).
    f_equal. destruct (negative p); [|reflexivity].
    rewrite <- list_fmap_compose. reflexivity.
Qed.

(** X2.  Flagging every row of a table multiplies the result of [ppf]
    by -1 and changes nothing else: the quantiles are computed from
    [shape] and [scale] alone, and the sign is applied afterwards. *)
Theorem ppf_of_flagged_table_is_negated
    (params : table) (percentages : ref) (h : heap) (m : matrix) :
  h !! percentages = Some (Arr2 m) -> length m = length params ->
  exists out : matrix,
    fst (ppf (with_negative false <$> params) percentages h) = Ok out
    /\ fst (ppf (with_negative true <$> params) percentages h)
       = Ok (neg_rows out).
Proof.
  intros Hv Hlen. exists (ppf_values params m).
  rewrite !(ppf_run _ _ _ _ Hv) by (rewrite length_fmap; exact Hlen).
  simpl. rewrite !ppf_values_with_negative.
  rewrite mirror_none_flagged, mirror_all_flagged
    by (apply length_ppf_values, Hlen).
  split; reflexivity.
Qed.

(** ** cdf *)

(** X3.  [cdf] and [ppf] keep the shape of their argument: the result
    has one row per row of the value array, and each result row is as
    long as the row it was computed from. *)
Theorem cdf_and_ppf_keep_shape
    (params : table) (vector : ref) (h : heap) (m : matrix) :
  h !! vector = Some (Arr2 m) -> length m = length params ->
  exists c q : matrix,
    fst (cdf params vector h) = Ok c
    /\ fst (ppf params vector h) = Ok q
    /\ length c = length m /\ length q = length m
    /\ (forall i row, m !! i = Some row ->
          exists crow qrow : vec,
            c !! i = Some crow /\ q !! i = Some qrow
            /\ length crow = length row /\ length qrow = length row).
Proof.
  intros Hv Hlen.
  exists (cdf_values params (mirror params m)),
         (mirror params (ppf_values params m)).
  rewrite (cdf_run _ _ _ _ Hv Hlen), (ppf_run _ _ _ _ Hv Hlen). simpl.
  split; [reflexivity|]. split; [reflexivity|].
  split; [rewrite length_cdf_values; [congruence | apply length_mirror, Hlen]|].
  split; [rewrite length_mirror; [congruence | apply length_ppf_values, Hlen]|].
  intros i row Hrow.
  destruct (lookup_lt_is_Some_2 params i) as [p Hp].
  { rewrite <- Hlen. eapply lookup_lt_Some. exact Hrow. }
  rewrite (cdf_values_lookup _ _ _ _ _ Hp (mirror_lookup _ _ _ _ _ Hp Hrow)).
  rewrite (mirror_lookup _ _ _ _ _ Hp (ppf_values_lookup _ _ _ _ _ Hp Hrow)).
  eexists _, _. split; [reflexivity|]. split; [reflexivity|].
  destruct (negative p); rewrite ?length_fmap; split; reflexivity.
Qed.

(** X4.  A second call of [cdf] on the same array object undoes the
    sign change of the first: after two calls the heap is what it was
    before the first, and the second call has evaluated the primitive
    at the caller's original values, not at the mirrored ones the
    first call used. *)
Theorem cdf_twice_restores_argument
    (params : table) (vector : ref) (h : heap) (m : matrix) :
  h !! vector = Some (Arr2 m) -> length m = length params ->
  let h1 := snd (cdf params vector h) in
  fst (cdf params vector h) = Ok (cdf_values params (mirror params m))
  /\ fst (cdf params vector h1) = Ok (cdf_values params m)
  /\ snd (cdf params vector h1) = h.
Proof.
  intros Hv Hlen h1. subst h1.
  rewrite (cdf_run _ _ _ _ Hv Hlen). simpl.
  rewrite (cdf_run params vector _ (mirror params m))
    by (rewrite ?lookup_insert_eq, ?length_mirror; auto).
  simpl. rewrite mirror_involutive by exact Hlen.
  split; [reflexivity|]. split; [reflexivity|].
  rewrite insert_insert_eq. apply insert_id. exact Hv.
Qed.

(** X5.  When no row of the table is flagged [negative], [cdf] leaves
    the heap as it found it. *)
Theorem cdf_without_flags_keeps_heap
    (params : table) (vector : ref) (h : heap) (m : matrix) :
  h !! vector = Some (Arr2 m) -> length m = length params ->
  Forall (fun p => negative p = false) params ->
  cdf params vector h = (Ok (cdf_values params m), h).
Proof.
  intros Hv Hlen Hflags. rewrite (cdf_run _ _ _ _ Hv Hlen).
  rewrite mirror_unflagged by assumption.
  rewrite insert_id by exact Hv. reflexivity.
Qed.

(** X6.  For a table with every row flagged, [cdf] at the values [m]
    returns what [cdf] returns for the same table with no row flagged
    at the values [-1 * m]: the flag only changes the point at which
    the cumulative function of the positive variable is evaluated. *)
Theorem cdf_of_flagged_table_evaluates_at_negated_values
    (params : table) (v v' : ref) (h h' : heap) (m : matrix) :
  h !! v = Some (Arr2 m) -> h' !! v' = Some (Arr2 (neg_rows m)) ->
  length m = length params ->
  fst (cdf (with_negative true <$> params) v h)
  = fst (cdf (with_negative false <$> params) v' h').
Proof.
  intros Hv Hv' Hlen.
  rewrite (cdf_run _ _ _ _ Hv) by (rewrite length_fmap; exact Hlen).
  rewrite (cdf_run _ _ _ _ Hv')
    by (unfold neg_rows; rewrite !length_fmap; exact Hlen).
  simpl. rewrite !cdf_values_with_negative.
  rewrite mirror_all_flagged by exact Hlen.
  rewrite mirror_none_flagged by (unfold neg_rows; rewrite length_fmap; exact Hlen).
  reflexivity.
Qed.

(** ** random_variables *)

(** X12.  Flagging every row of a table multiplies the sample by -1
    and changes nothing else: the generator is asked for the same
    draws, since it is given the [scale] and [shape] columns and the
    shape only, and the sign is applied to what it returns. *)
Theorem random_variables_of_flagged_table_is_negated
    (params : table) (size : nat) (seeded_random : option RandomState) :
  exists data : matrix,
    random_variables (with_negative false <$> params) size seeded_random
    = Ok data
    /\ random_variables (with_negative true <$> params) size seeded_random
       = Ok (neg_rows data).
Proof.
  set (g := match seeded_random with Some g => g | None => np_random end).
  set (data := transpose (length params)
                 (lognormal g (scale <$> params) (shape <$> params)
                            (size, length params))).
  assert (Hlen : length data = length params).
  { subst data. unfold transpose. rewrite length_fmap, length_seq. reflexivity. }
  assert (Hrun : forall b,
            random_variables (with_negative b <$> params) size seeded_random
            = Ok (mirror (with_negative b <$> params) data)).
  { intros b. unfold random_variables. fold g. rewrite length_fmap.
    replace (scale <$> (with_negative b <$> params)) with (scale <$> params)
      by (rewrite <- list_fmap_compose; reflexivity).
    replace (shape <$> (with_negative b <$> params)) with (shape <$> params)
      by (rewrite <- list_fmap_compose; reflexivity).
    apply negate_masked_mirror. rewrite length_fmap. exact Hlen. }
  exists data. rewrite !Hrun.
  rewrite mirror_none_flagged, mirror_all_flagged by exact Hlen.
  split; reflexivity.
Qed.

(** ** validate *)

Lemma validate_ok_iff (t : table) :
  validate t = Ok tt
  <-> Forall positive (scale <$> t) /\ Forall positive (shape <$> t).
Proof.
  split; [apply validate_ok_positive|].
  intros [Hsc Hsh]. rewrite validate_cases.
  rewrite (proj2 (nan_or_nonpositive_false _) Hsc).
  rewrite (proj2 (nan_or_nonpositive_false _) Hsh). reflexivity.
Qed.

(** X13.  [validate] accepts the concatenation of two tables exactly
    when it accepts each of them: the checks are sums over whole
    columns, so no row can make up for another. *)
Theorem validate_of_concatenation (t1 t2 : table) :
  validate (t1 ++ t2) = Ok tt
  <-> validate t1 = Ok tt /\ validate t2 = Ok tt.
Proof. rewrite !validate_ok_iff, !fmap_app, !Forall_app. tauto. Qed.

(** ** pdf *)

Lemma length_linspace (start stop : float) (num : nat) :
  length (linspace start stop num) = num.
Proof.
  destruct num as [|[|n]]; [reflexivity | reflexivity |].
  unfold linspace. rewrite length_insert, length_fmap, length_seq. reflexivity.
Qed.

Lemma INR_S_not_0 (n : nat) : INR (S n) <> 0.
Proof. apply not_0_INR. discriminate. Qed.

Lemma linspace_lookup (a b : R) (n i : nat) :
  (i <= S n)%nat ->
  linspace (Fin a) (Fin b) (S (S n)) !! i
  = Some (Fin (INR i * ((b - a) / INR (S n)) + a)).
Proof.
  intros Hi. unfold linspace.
  assert (Hstep : Float.div (Float.sub (Fin b) (Fin a)) (Float.of_nat (S n))
                  = Fin ((b - a) / INR (S n))).
  { unfold Float.div, Float.sub, Float.of_nat, Float.lift2.
    rewrite bool_decide_eq_false_2 by apply INR_S_not_0. reflexivity. }
  rewrite Hstep. clear Hstep.
  destruct (decide (i = S n)) as [->|Hne].
  - rewrite list_lookup_insert_eq by (rewrite length_fmap, length_seq; lia).
    do 2 f_equal. field. apply INR_S_not_0.
  - rewrite list_lookup_insert_ne by congruence.
    rewrite list_lookup_fmap, lookup_seq_lt by lia. reflexivity.
Qed.

Lemma linspace_constant (a : R) (num : nat) :
  linspace (Fin a) (Fin a) num = replicate num (Fin a).
Proof.
  destruct num as [|[|n]]; [reflexivity | reflexivity |].
  apply list_eq. intros i.
  destruct (decide (i <= S n)%nat) as [Hi|Hi].
  - rewrite linspace_lookup by exact Hi.
    rewrite lookup_replicate_2 by lia. do 2 f_equal.
    unfold Rdiv. ring.
  - rewrite lookup_ge_None_2 by (rewrite length_linspace; lia).
    symmetry. apply lookup_replicate_None. lia.
Qed.

(** X14.  [pdf] returns two sequences of the same length: the length
    of the abscissae it is given, or [default_number_points_in_pdf]
    when it is given none. *)
Theorem pdf_returns_sequences_of_equal_length
    (p : params_row) (xs : option vec) :
  exists a b : vec,
    pdf [p] xs = Ok (a, b)
    /\ length a = length b
    /\ length a = match xs with
                  | Some l => length l
                  | None => default_number_points_in_pdf
                  end.
Proof.
  unfold pdf, one_row_params_array, pdf_row.
  destruct (default_range p) as [lo hi].
  eexists _, _. split; [reflexivity|].
  destruct xs as [l|]; destruct (negative p);
    rewrite ?length_fmap, ?length_linspace; split; reflexivity.
Qed.

(** X15.  Flagging a row changes the result of [pdf] in one way only:
    the abscissae come back multiplied by -1.  The densities are those
    of the unflagged row, since they are computed before the sign is
    applied, and the default range does not depend on the flag. *)
Theorem pdf_of_flagged_row_negates_abscissae
    (p : params_row) (xs : option vec) :
  exists a b : vec,
    pdf [with_negative false p] xs = Ok (a, b)
    /\ pdf [with_negative true p] xs = Ok (Float.neg <$> a, b).
Proof.
  unfold pdf, one_row_params_array, pdf_row.
  change (default_range (with_negative true p))
    with (default_range (with_negative false p)).
  destruct (default_range (with_negative false p)) as [lo hi].
  eexists _, _. split; reflexivity.
Qed.

(** X16.  When a row has both [minimum] and [maximum] set, the default
    abscissae of [pdf] are all the same point, [abs(minimum)]
    (multiplied by -1 for a flagged row), and so are the densities:
    the curve degenerates to one point repeated
    [default_number_points_in_pdf] times. *)
Theorem pdf_default_curve_degenerates_when_bounds_set
    (p : params_row) (mn mx : R) :
  minimum p = Fin mn -> maximum p = Fin mx ->
  pdf [p] None
  = Ok (replicate default_number_points_in_pdf
          (if negative p then Float.neg (Fin (Rabs mn)) else Fin (Rabs mn)),
        replicate default_number_points_in_pdf
          (lognorm_pdf (Fin (Rabs mn)) (shape p) (scale p))).
Proof.
  intros Hmin Hmax. unfold pdf, one_row_params_array, pdf_row, default_range.
  rewrite Hmin, Hmax. simpl Float.isnan. cbv iota. simpl Float.abs.
  rewrite linspace_constant.
  destruct (negative p); rewrite !fmap_replicate; reflexivity.
Qed.

End LognormalUncertainty.

(* ===================================================================== *)
(** * statistics under machine arithmetic *)
(* ===================================================================== *)

(** ** Comparisons and signs *)

Lemma xle_trans (x y z : xfloat) :
  XFloat.le x y = true -> XFloat.le y z = true -> XFloat.le x z = true.
Proof.
  destruct x as [|[] |a], y as [|[] |b], z as [|[] |c]; simpl;
    try reflexivity; try discriminate.
  rewrite !bool_decide_eq_true. apply Rle_trans.
Qed.

Lemma xle_neg (x y : xfloat) :
  XFloat.le (XFloat.neg y) (XFloat.neg x) = XFloat.le x y.
Proof.
  destruct x as [|[] |a], y as [|[] |b]; simpl; try reflexivity.
  apply bool_decide_ext. lra.
Qed.

Lemma xle_fin_inv (x : xfloat) (lo hi : R) :
  XFloat.le (XFin lo) x = true -> XFloat.le x (XFin hi) = true ->
  exists r : R, x = XFin r /\ lo <= r <= hi.
Proof.
  destruct x as [|[] |r]; simpl; try discriminate.
  rewrite !bool_decide_eq_true. intros H1 H2. exists r. split; [reflexivity | lra].
Qed.

(** ** Values that are binary64 numbers *)

Lemma binary64_rnd {mach : Machine} (L : MachineLaws mach) (r : R) :
  XFloat.binary64 (rnd r).
Proof.
  destruct (rnd r) as [| s | r'] eqn:Hr; simpl; [exact I | exact I |].
  apply (rnd_idempotent r). exact Hr.
Qed.

Lemma binary64_np_exp {mach : Machine} (L : MachineLaws mach) (x : xfloat) :
  XFloat.binary64 (XFloat.np_exp x).
Proof.
  destruct x as [|[] |a]; simpl; try exact I.
  - apply rnd_0.
  - destruct (exp_range a) as [-> | (r & -> & _ & Hr)]; [exact I | exact Hr].
Qed.

Lemma binary64_mul {mach : Machine} (L : MachineLaws mach) (x y : xfloat) :
  XFloat.binary64 (XFloat.mul x y).
Proof.
  destruct x as [|s|a], y as [|t|b]; simpl; try exact I;
    try (case_bool_decide; exact I).
  apply binary64_rnd. exact L.
Qed.

Lemma binary64_div {mach : Machine} (L : MachineLaws mach) (x y : xfloat) :
  XFloat.binary64 (XFloat.div x y).
Proof.
  destruct x as [|s|a], y as [|t|b]; simpl; try exact I.
  - apply rnd_0.
  - repeat case_bool_decide; try exact I. apply binary64_rnd. exact L.
Qed.

Lemma mul_one {mach : Machine} (L : MachineLaws mach) (x : xfloat) :
  XFloat.binary64 x -> XFloat.mul (XFloat.of_Z 1) x = x.
Proof.
  destruct x as [|s|r]; simpl; intros Hx; [reflexivity | |].
  - rewrite bool_decide_eq_false_2 by lra.
    rewrite (bool_decide_eq_false_2 (1 < 0)) by lra. reflexivity.
  - rewrite Rmult_1_l. exact Hx.
Qed.

Lemma mul_minus_one {mach : Machine} (L : MachineLaws mach) (x : xfloat) :
  XFloat.binary64 x -> XFloat.mul (XFloat.of_Z (-1)) x = XFloat.neg x.
Proof.
  destruct x as [|s|r]; simpl; intros Hx; [reflexivity | |].
  - rewrite bool_decide_eq_false_2 by lra.
    rewrite (bool_decide_eq_true_2 (-1 < 0)) by lra. reflexivity.
  - replace (-1 * r) with (- r) by ring.
    rewrite rnd_opp, Hx. reflexivity.
Qed.

(** ** The record in terms of the five values *)

Lemma statistics_by_values {mach : Machine}
    (set_negative_flag : params_row -> params_row) (p : params_row) :
  statistics set_negative_flag [p] false =
    match statistics_values p with
    | Raise e => Raise e
    | Ok (gm, mo, me, lo, hi) =>
        Ok (if negative p
            then {| median := XFloat.mul (XFloat.of_Z (-1)) gm;
                    mode := XFloat.mul (XFloat.of_Z (-1)) mo;
                    mean := XFloat.mul (XFloat.of_Z (-1)) me;
                    lower := XFloat.mul (XFloat.of_Z (-1)) hi;
                    upper := XFloat.mul (XFloat.of_Z (-1)) lo |}
            else {| median := XFloat.mul (XFloat.of_Z 1) gm;
                    mode := XFloat.mul (XFloat.of_Z 1) mo;
                    mean := XFloat.mul (XFloat.of_Z 1) me;
                    lower := XFloat.mul (XFloat.of_Z 1) lo;
                    upper := XFloat.mul (XFloat.of_Z 1) hi |})
    end.
Proof.
  unfold statistics, one_row_params_array, statistics_row, statistics_values.
  cbv zeta. unfold bind.
  destruct (XFloat.py_pow2 (XFloat.of_float (shape p))) as [s2|e];
    [|reflexivity].
  destruct (XFloat.py_truediv s2 (XFloat.of_Z 2)) as [half|e]; [|reflexivity].
  destruct (XFloat.py_pow2 (XFloat.np_exp (XFloat.of_float (shape p))))
    as [gs2|e]; [|reflexivity].
  destruct (XFloat.py_truediv _ gs2) as [lo|e]; [|reflexivity].
  destruct (negative p); reflexivity.
Qed.

Lemma statistics_with_transform {mach : Machine}
    (set_negative_flag : params_row -> params_row) (p : params_row) :
  statistics set_negative_flag [p] true
  = statistics set_negative_flag [set_negative_flag p] false.
Proof. reflexivity. Qed.

Lemma statistics_values_with_negative {mach : Machine} (b : bool) (p : params_row) :
  statistics_values (with_negative b p) = statistics_values p.
Proof. reflexivity. Qed.

Lemma py_pow2_binary64 {mach : Machine} (L : MachineLaws mach) (x v : xfloat) :
  XFloat.py_pow2 x = Ok v -> XFloat.binary64 v.
Proof.
  destruct x as [|s|a]; simpl.
  - intros [= <-]. exact I.
  - intros [= <-]. exact I.
  - destruct (pow2_range a) as [-> | (q & -> & _ & Hq)]; [discriminate|].
    intros [= <-]. exact Hq.
Qed.

Lemma statistics_values_binary64 {mach : Machine} (L : MachineLaws mach)
    (p : params_row) gm mo me lo hi :
  statistics_values p = Ok (gm, mo, me, lo, hi) ->
  gm = XFloat.np_exp (XFloat.of_float (scale p))
  /\ XFloat.binary64 gm /\ XFloat.binary64 mo /\ XFloat.binary64 me
  /\ XFloat.binary64 lo /\ XFloat.binary64 hi.
Proof.
  unfold statistics_values. cbv zeta. unfold bind.
  destruct (XFloat.py_pow2 (XFloat.of_float (shape p))) as [s2|e];
    [|discriminate].
  destruct (XFloat.py_truediv s2 (XFloat.of_Z 2)) as [half|e]; [|discriminate].
  destruct (XFloat.py_pow2 (XFloat.np_exp (XFloat.of_float (shape p))))
    as [gs2|e]; [|discriminate].
  destruct (XFloat.py_truediv _ gs2) as [lo'|e] eqn:Hlo; [|discriminate].
  intros [= <- <- <- <- <-]. split; [reflexivity|].
  repeat split; try (apply binary64_np_exp; exact L).
  - unfold XFloat.py_truediv in Hlo. destruct (XFloat.is_zero gs2); [discriminate|].
    injection Hlo as <-. apply binary64_div. exact L.
  - apply binary64_mul. exact L.
Qed.

(** ** Exponentials of non-negative numbers and their squares *)

Lemma exp_of_nonnegative {mach : Machine} (L : MachineLaws mach) (a : R) :
  0 <= a ->
  np_exp_finite a = XInf false
  \/ exists r : R, np_exp_finite a = XFin r /\ 1 <= r /\ rnd r = XFin r.
Proof.
  intros Ha. pose proof (exp_lower a 0%nat Ha) as Hlow.
  destruct (exp_range a) as [H | (r & H & _ & Hr)]; [left; exact H|].
  right. exists r. rewrite H in Hlow. simpl in Hlow.
  apply bool_decide_eq_true_1 in Hlow.
  split; [exact H|]. split; [lra | exact Hr].
Qed.

Lemma pow2_of_at_least_one {mach : Machine} (L : MachineLaws mach) (g : R) :
  1 <= g ->
  libm_pow2 g = XInf false
  \/ exists b : R, libm_pow2 g = XFin b /\ 1 <= b /\ rnd b = XFin b.
Proof.
  intros Hg. assert (Hgg : 1 <= g * g) by nra.
  pose proof (pow2_lower g Hgg) as Hlow.
  destruct (pow2_range g) as [H | (b & H & _ & Hb)]; [left; exact H|].
  right. exists b. rewrite H in Hlow. simpl in Hlow.
  apply bool_decide_eq_true_1 in Hlow.
  split; [exact H|]. split; [exact Hlow | exact Hb].
Qed.

Lemma py_pow2_cases {mach : Machine} (L : MachineLaws mach) (a : R) :
  (libm_pow2 a = XInf false /\ XFloat.py_pow2 (XFin a) = Raise OverflowError)
  \/ exists q : R,
       libm_pow2 a = XFin q /\ XFloat.py_pow2 (XFin a) = Ok (XFin q)
       /\ 0 <= q /\ rnd q = XFin q.
Proof.
  unfold XFloat.py_pow2.
  destruct (pow2_range a) as [H | (q & H & Hq & Hr)]; rewrite H.
  - left. split; reflexivity.
  - right. exists q. repeat split; assumption.
Qed.

Lemma truediv_by_two {mach : Machine} (x : xfloat) :
  XFloat.py_truediv x (XFloat.of_Z 2) = Ok (XFloat.div x (XFloat.of_Z 2)).
Proof.
  unfold XFloat.py_truediv, XFloat.is_zero, XFloat.of_Z.
  rewrite bool_decide_eq_false_2 by lra. reflexivity.
Qed.

Lemma truediv_nonzero {mach : Machine} (x : xfloat) (b : R) :
  b <> 0 -> XFloat.py_truediv x (XFin b) = Ok (XFloat.div x (XFin b)).
Proof.
  intros Hb. unfold XFloat.py_truediv, XFloat.is_zero.
  rewrite bool_decide_eq_false_2 by exact Hb. reflexivity.
Qed.

(** The two bounds before the sign is applied, for a row with
    [scale >= 0] and [shape >= 0]: either a square overflows, or both
    exponentials are infinite and [ci_95_lower] is NaN, or the bounds
    enclose [geometric_mu]. *)
Lemma statistics_values_of_nonnegative_row {mach : Machine}
    (L : MachineLaws mach) (p : params_row) (mu sigma : R) :
  scale p = Fin mu -> shape p = Fin sigma -> 0 <= mu -> 0 <= sigma ->
  statistics_values p = Raise OverflowError
  \/ exists gm mo me lo hi : xfloat,
       statistics_values p = Ok (gm, mo, me, lo, hi)
       /\ ((np_exp_finite mu = XInf false /\ np_exp_finite sigma = XInf false
            /\ lo = XNaN /\ hi = XInf false)
           \/ ((np_exp_finite mu <> XInf false
                \/ np_exp_finite sigma <> XInf false)
               /\ XFloat.le lo gm = true /\ XFloat.le gm hi = true)).
Proof.
  intros Hmu Hsigma Hmu0 Hsigma0.
  unfold statistics_values. cbv zeta. rewrite Hmu, Hsigma.
  cbn [XFloat.of_float XFloat.np_exp]. unfold bind.
  destruct (py_pow2_cases L sigma) as [[_ ->] | (q & _ & -> & _)];
    [left; reflexivity|].
  rewrite truediv_by_two.
  destruct (exp_of_nonnegative L sigma Hsigma0) as [Hgs | (g & Hgs & Hg & Hgr)];
    rewrite Hgs.
  - (* exp(shape) is infinite *)
    cbn [XFloat.py_pow2]. unfold XFloat.py_truediv. cbn [XFloat.is_zero].
    right.
    destruct (exp_of_nonnegative L mu Hmu0) as [Hgm | (a & Hgm & Ha & Har)];
      rewrite Hgm.
    + eexists _, _, _, _, _. split; [reflexivity|]. left.
      repeat split; reflexivity.
    + eexists _, _, _, _, _. split; [reflexivity|]. right.
      split; [left; discriminate|].
      cbn [XFloat.div XFloat.mul XFloat.le].
      rewrite (bool_decide_eq_false_2 (a = 0)) by lra.
      rewrite (bool_decide_eq_false_2 (a < 0)) by lra.
      split; [apply bool_decide_eq_true_2; lra | reflexivity].
  - (* exp(shape) is finite, at least 1 *)
    destruct (py_pow2_cases L g) as [[_ ->] | (b & Hb' & -> & _)];
      [left; reflexivity|].
    assert (Hb : 1 <= b).
    { destruct (pow2_of_at_least_one L g Hg) as [H | (b' & H & Hb & _)];
        rewrite H in Hb'; [discriminate|]. injection Hb' as <-. exact Hb. }
    rewrite truediv_nonzero by lra. right.
    destruct (exp_of_nonnegative L mu Hmu0) as [Hgm | (a & Hgm & Ha & Har)];
      rewrite Hgm.
    + eexists _, _, _, _, _. split; [reflexivity|]. right.
      split; [right; discriminate|].
      cbn [XFloat.div XFloat.mul XFloat.le].
      rewrite (bool_decide_eq_false_2 (b = 0)) by lra.
      rewrite (bool_decide_eq_false_2 (b < 0)) by lra.
      split; reflexivity.
    + eexists _, _, _, _, _. split; [reflexivity|]. right.
      split; [left; discriminate|].
      cbn [XFloat.div XFloat.mul].
      rewrite (bool_decide_eq_false_2 (b = 0)) by lra.
      assert (Hinv : 0 < / b <= 1).
      { split; [apply Rinv_0_lt_compat; lra|].
        rewrite <- Rinv_1. apply Rinv_le_contravar; lra. }
      split.
      * rewrite <- Har. apply rnd_monotone. unfold Rdiv. nra.
      * rewrite <- Har. apply rnd_monotone. nra.
Qed.

(** ** Where [statistics] returns and where it raises *)

Lemma pow2_1000_split : 2 ^ 500 * 2 ^ 500 = 2 ^ 1000.
Proof. rewrite <- pow_add. reflexivity. Qed.

Lemma pow2_1000_large : 4194304 <= 2 ^ 1000.
Proof.
  change 1000%nat with (22 + 978)%nat. rewrite pow_add.
  assert (H22 : 2 ^ 22 = 4194304) by (simpl; lra).
  assert (H978 : 1 <= 2 ^ 978) by (apply pow_R1_Rle; lra).
  rewrite H22. set (t := 2 ^ 978) in *. lra.
Qed.

Lemma pow2_1024_le_1200 : 2 ^ 1024 <= 2 ^ 600 * 2 ^ 600.
Proof. rewrite <- pow_add. apply Rle_pow; [lra | lia]. Qed.

Lemma py_pow2_small {mach : Machine} (L : MachineLaws mach) (a : R) :
  a * a <= 2 ^ 1000 ->
  exists q : R, XFloat.py_pow2 (XFin a) = Ok (XFin q) /\ libm_pow2 a = XFin q.
Proof.
  intros Ha. destruct (pow2_finite a Ha) as [q Hq].
  exists q. unfold XFloat.py_pow2. rewrite Hq. split; reflexivity.
Qed.

(** For a shape between -250 and 250 no square overflows and the
    divisor is not zero: the five values are computed, whatever the
    scale. *)
Lemma statistics_values_return {mach : Machine} (L : MachineLaws mach)
    (p : params_row) (sigma : R) :
  shape p = Fin sigma -> -250 <= sigma <= 250 ->
  exists gm mo me lo hi : xfloat,
    statistics_values p = Ok (gm, mo, me, lo, hi)
    /\ exists g : R, np_exp_finite sigma = XFin g.
Proof.
  intros Hsigma Hrange.
  pose proof pow2_1000_large as Hlarge. pose proof pow2_1000_split as Hsplit.
  assert (Hpos : 0 < 2 ^ 500) by (apply pow_lt; lra).
  unfold statistics_values. cbv zeta. rewrite Hsigma.
  cbn [XFloat.of_float XFloat.np_exp]. unfold bind.
  destruct (py_pow2_small L sigma) as (q & -> & _).
  { set (t := 2 ^ 1000) in *. nra. }
  rewrite truediv_by_two.
  destruct (exp_moderate sigma Hrange) as [Hlo Hhi].
  destruct (xle_fin_inv _ _ _ Hlo Hhi) as (g & Hg & Hg1 & Hg2).
  rewrite Hg.
  assert (Hinv : 0 < / 2 ^ 500) by (apply Rinv_0_lt_compat; exact Hpos).
  destruct (py_pow2_small L g) as (b & -> & Hb).
  { rewrite <- Hsplit. set (t := 2 ^ 500) in *. nra. }
  rewrite truediv_nonzero.
  - eexists _, _, _, _, _. split; [reflexivity|]. exists g. reflexivity.
  - intros ->. apply (pow2_positive g); [|exact Hb].
    rewrite <- Hsplit, Rinv_mult. set (t := / 2 ^ 500) in *. nra.
Qed.

(** [exp(600.0)] is finite and its square is not. *)
Lemma statistics_values_overflow {mach : Machine} (L : MachineLaws mach)
    (p : params_row) :
  shape p = Fin 600 -> statistics_values p = Raise OverflowError.
Proof.
  intros Hsigma.
  pose proof pow2_1000_large as Hlarge.
  unfold statistics_values. cbv zeta. rewrite Hsigma.
  cbn [XFloat.of_float XFloat.np_exp]. unfold bind.
  destruct (py_pow2_small L 600) as (q & -> & _).
  { set (t := 2 ^ 1000) in *. lra. }
  rewrite truediv_by_two.
  destruct (exp_finite 600) as [g Hg]; [lra|]. rewrite Hg.
  assert (Hlow : 2 ^ 600 <= g).
  { assert (H : XFloat.le (XFin (2 ^ 600)) (np_exp_finite 600) = true).
    { apply exp_lower. rewrite INR_IZR_INZ.
      change (Z.of_nat 600) with 600%Z. lra. }
    rewrite Hg in H. cbn [XFloat.le] in H.
    apply bool_decide_eq_true_1 in H. exact H. }
  assert (Hover : 2 ^ 1024 <= g * g).
  { pose proof pow2_1024_le_1200 as H.
    assert (Hpos : 0 < 2 ^ 600) by (apply pow_lt; lra).
    set (t := 2 ^ 600) in *. set (u := 2 ^ 1024) in *. nra. }
  unfold XFloat.py_pow2. rewrite (pow2_overflow g Hover). reflexivity.
Qed.

(** When [exp(scale)] and [exp(shape)] are both infinite, nothing
    raises and [ci_95_lower] is [inf / inf]. *)
Lemma statistics_values_both_infinite {mach : Machine} (L : MachineLaws mach)
    (p : params_row) (mu sigma : R) :
  scale p = Fin mu -> shape p = Fin sigma ->
  np_exp_finite mu = XInf false -> np_exp_finite sigma = XInf false ->
  sigma * sigma <= 2 ^ 1000 ->
  exists mo me : xfloat,
    statistics_values p = Ok (XInf false, mo, me, XNaN, XInf false).
Proof.
  intros Hmu Hsigma Hgm Hgs Hsq.
  unfold statistics_values. cbv zeta. rewrite Hmu, Hsigma.
  cbn [XFloat.of_float XFloat.np_exp]. unfold bind.
  destruct (py_pow2_small L sigma Hsq) as (q & -> & _).
  rewrite truediv_by_two, Hgm, Hgs.
  eexists _, _. reflexivity.
Qed.

(** ** The record read off the five values *)

Lemma record_of_values {mach : Machine} (L : MachineLaws mach)
    (set_negative_flag : params_row -> params_row)
    (p : params_row) gm mo me lo hi :
  statistics_values p = Ok (gm, mo, me, lo, hi) ->
  exists s : stats,
    statistics set_negative_flag [p] false = Ok s
    /\ median s = (if negative p then XFloat.neg gm else gm)
    /\ lower s = (if negative p then XFloat.neg hi else lo)
    /\ upper s = (if negative p then XFloat.neg lo else hi).
Proof.
  intros Hv.
  destruct (statistics_values_binary64 L p _ _ _ _ _ Hv)
    as (_ & Hgm & _ & _ & Hlo & Hhi).
  rewrite statistics_by_values, Hv. eexists. split; [reflexivity|].
  destruct (negative p); cbn [median lower upper];
    rewrite ?mul_one, ?mul_minus_one by assumption; repeat split; reflexivity.
Qed.

Lemma record_encloses_median {mach : Machine} (flagged : bool)
    (gm lo hi : xfloat) :
  XFloat.le lo gm = true -> XFloat.le gm hi = true ->
  XFloat.le (if flagged then XFloat.neg hi else lo)
            (if flagged then XFloat.neg gm else gm) = true
  /\ XFloat.le (if flagged then XFloat.neg gm else gm)
               (if flagged then XFloat.neg lo else hi) = true.
Proof.
  intros H1 H2. destruct flagged; rewrite ?xle_neg; split; assumption.
Qed.

(** ** The statements about [statistics] *)

(** C5.  With [transform] off, [statistics] on a row flagged
    [negative] ends as it does on the same row without the flag: both
    calls raise the same exception, or both return, and then every
    entry of the flagged record is -1 times the entry of the unflagged
    one, with [lower] and [upper] exchanged.  The median of the
    unflagged record is [exp(scale)] as [np.exp] computes it.  A record
    is returned whenever [shape] lies between -250 and 250. *)
Theorem statistics_of_mirrored_row {mach : Machine} (L : MachineLaws mach)
    (set_negative_flag : params_row -> params_row) (p : params_row) :
  statistics set_negative_flag [with_negative true p] false
  = match statistics set_negative_flag [with_negative false p] false with
    | Ok s => Ok (mirrored_stats s)
    | Raise e => Raise e
    end
  /\ (forall s : stats,
        statistics set_negative_flag [with_negative false p] false = Ok s ->
        median s = XFloat.np_exp (XFloat.of_float (scale p)))
  /\ (forall sigma : R,
        shape p = Fin sigma -> -250 <= sigma <= 250 ->
        exists s : stats,
          statistics set_negative_flag [with_negative false p] false = Ok s).
Proof.
  rewrite !statistics_by_values, !statistics_values_with_negative.
  cbn [negative with_negative].
  split; [|split].
  - destruct (statistics_values p) as [[[[[gm mo] me] lo] hi]|e] eqn:Hv;
      [|reflexivity].
    destruct (statistics_values_binary64 L p _ _ _ _ _ Hv)
      as (_ & Hgm & Hmo & Hme & Hlo & Hhi).
    unfold mirrored_stats. cbn [median mode mean lower upper].
    rewrite !mul_one by assumption. reflexivity.
  - intros s.
    destruct (statistics_values p) as [[[[[gm mo] me] lo] hi]|e] eqn:Hv;
      [|discriminate].
    destruct (statistics_values_binary64 L p _ _ _ _ _ Hv) as (Heq & Hgm & _).
    intros [= <-].
    change (XFloat.mul (XFloat.of_Z 1) gm
            = XFloat.np_exp (XFloat.of_float (scale p))).
    rewrite mul_one by assumption. exact Heq.
  - intros sigma Hsigma Hrange.
    destruct (statistics_values_return L p sigma Hsigma Hrange)
      as (gm & mo & me & lo & hi & -> & _).
    eexists. reflexivity.
Qed.

(** C9.  For a row with positive [scale] and [shape], [statistics]
    raises [OverflowError] or returns a record.  The returned record
    has [lower <= upper], flagged or not, unless [exp(scale)] and
    [exp(shape)] are both infinite; then one bound is NaN and
    [lower <= upper] is false.  For [shape <= 250] a record is returned
    and [lower <= upper] holds.  With [transform] on this needs the
    inherited helper to leave [scale] and [shape] of the row alone. *)
Theorem statistics_interval_is_oriented {mach : Machine} (L : MachineLaws mach)
    (set_negative_flag : params_row -> params_row)
    (p : params_row) (transform : bool) :
  (transform = true ->
   scale (set_negative_flag p) = scale p
   /\ shape (set_negative_flag p) = shape p) ->
  positive (scale p) -> positive (shape p) ->
  let gm := XFloat.np_exp (XFloat.of_float (scale p)) in
  let gs := XFloat.np_exp (XFloat.of_float (shape p)) in
  (statistics set_negative_flag [p] transform = Raise OverflowError
   \/ exists s : stats,
        statistics set_negative_flag [p] transform = Ok s
        /\ (gm = XInf false /\ gs = XInf false ->
            XFloat.le (lower s) (upper s) = false)
        /\ (gm <> XInf false \/ gs <> XInf false ->
            XFloat.le (lower s) (upper s) = true))
  /\ (forall sigma : R,
        shape p = Fin sigma -> sigma <= 250 ->
        exists s : stats,
          statistics set_negative_flag [p] transform = Ok s
          /\ XFloat.le (lower s) (upper s) = true).
Proof.
  intros Hflag (mu & Hmu & Hmupos) (sigma & Hsigma & Hsigmapos) gm gs.
  subst gm gs. rewrite Hmu, Hsigma. cbn [XFloat.of_float XFloat.np_exp].
  set (q := if transform then set_negative_flag p else p).
  assert (Hq : scale q = Fin mu /\ shape q = Fin sigma).
  { subst q. destruct transform; [|split; assumption].
    destruct (Hflag eq_refl) as [-> ->]. split; assumption. }
  destruct Hq as [Hqmu Hqsigma].
  replace (statistics set_negative_flag [p] transform)
    with (statistics set_negative_flag [q] false)
    by (subst q; destruct transform; reflexivity).
  assert (Hmain :
            statistics set_negative_flag [q] false = Raise OverflowError
            \/ exists s : stats,
                 statistics set_negative_flag [q] false = Ok s
                 /\ (np_exp_finite mu = XInf false
                     /\ np_exp_finite sigma = XInf false ->
                     XFloat.le (lower s) (upper s) = false)
                 /\ (np_exp_finite mu <> XInf false
                     \/ np_exp_finite sigma <> XInf false ->
                     XFloat.le (lower s) (upper s) = true)).
  { destruct (statistics_values_of_nonnegative_row L q mu sigma)
      as [Hraise | (gm & mo & me & lo & hi & Hv & Hcases)];
      [assumption | assumption | lra | lra | |].
    - left. rewrite statistics_by_values, Hraise. reflexivity.
    - right.
      destruct (record_of_values L set_negative_flag q _ _ _ _ _ Hv)
        as (s & Hs & _ & Hlower & Hupper).
      exists s. split; [exact Hs|]. rewrite Hlower, Hupper.
      destruct Hcases as [(Hgm & Hgs & -> & ->) | (Hnot & Hlo & Hhi)].
      + split; [intros _; destruct (negative q); reflexivity|].
        intros [H|H]; contradiction.
      + split; [intros [Hgm Hgs]; destruct Hnot; contradiction|].
        intros _.
        destruct (record_encloses_median (negative q) gm lo hi Hlo Hhi)
          as [H1 H2].
        exact (xle_trans _ _ _ H1 H2). }
  split; [exact Hmain|].
  intros sigma' Hsigma' Hle.
  assert (sigma' = sigma) by congruence. subst sigma'.
  destruct (statistics_values_return L q sigma Hqsigma)
    as (gm & mo & me & lo & hi & Hv & g & Hg); [lra|].
  destruct Hmain as [Hraise | (s & Hs & _ & Hgood)].
  - rewrite statistics_by_values, Hv in Hraise. discriminate.
  - exists s. split; [exact Hs|]. apply Hgood. right. rewrite Hg. discriminate.
Qed.

(** X9.  For a row with [scale >= 0] and [shape >= 0] on which
    [statistics] returns, the median lies in the returned interval,
    [lower <= median <= upper], flagged or not, unless [exp(scale)]
    and [exp(shape)] are both infinite. *)
Theorem statistics_median_within_interval {mach : Machine}
    (L : MachineLaws mach) (set_negative_flag : params_row -> params_row)
    (p : params_row) (mu sigma : R) (s : stats) :
  scale p = Fin mu -> shape p = Fin sigma -> 0 <= mu -> 0 <= sigma ->
  statistics set_negative_flag [p] false = Ok s ->
  XFloat.np_exp (XFin mu) <> XInf false
  \/ XFloat.np_exp (XFin sigma) <> XInf false ->
  XFloat.le (lower s) (median s) = true
  /\ XFloat.le (median s) (upper s) = true.
Proof.
  intros Hmu Hsigma Hmu0 Hsigma0 Hs Hfinite. cbn [XFloat.np_exp] in Hfinite.
  destruct (statistics_values_of_nonnegative_row L p mu sigma Hmu Hsigma Hmu0 Hsigma0)
    as [Hraise | (gm & mo & me & lo & hi & Hv & Hcases)].
  - rewrite statistics_by_values, Hraise in Hs. discriminate.
  - destruct (record_of_values L set_negative_flag p _ _ _ _ _ Hv)
      as (s' & Hs' & Hmedian & Hlower & Hupper).
    assert (s' = s) by congruence. subst s'.
    rewrite Hmedian, Hlower, Hupper.
    destruct Hcases as [(Hgm & Hgs & _) | (_ & Hlo & Hhi)].
    + destruct Hfinite; contradiction.
    + apply record_encloses_median; assumption.
Qed.

(* ===================================================================== *)
(** * The log-logistic instance satisfies the laws *)
(* ===================================================================== *)

Lemma LogLogistic_valid (s sc : R) :
  0 < s -> 0 < sc -> LogLogistic.valid s sc = true.
Proof.
  intros Hs Hsc. unfold LogLogistic.valid.
  rewrite !bool_decide_eq_true_2 by assumption. reflexivity.
Qed.

Lemma LogLogistic_laws : LognormLaws LogLogistic.prim.
Proof.
  split; simpl; unfold LogLogistic.cdf, LogLogistic.ppf.
  - intros s sc Hs Hsc. rewrite LogLogistic_valid by assumption.
    rewrite bool_decide_eq_true_2 by assumption. f_equal.
    replace (sc / sc) with 1 by (field; lra).
    rewrite ln_1. replace (- (0 / s)) with 0 by (field; lra).
    rewrite exp_0. lra.
  - intros x s sc Hs Hsc. rewrite LogLogistic_valid by assumption.
    destruct (bool_decide (0 < x)) eqn:Hx.
    + apply bool_decide_eq_true_1 in Hx. intros Heq. injection Heq as Heq.
      pose proof (exp_pos (- (ln (x / sc) / s))) as He.
      assert (He1 : exp (- (ln (x / sc) / s)) = exp 0).
      { rewrite exp_0.
        assert (Hne : 1 + exp (- (ln (x / sc) / s)) <> 0) by lra.
        assert (H2 : 2 = 1 + exp (- (ln (x / sc) / s))).
        { apply (Rmult_eq_reg_l (1 / (1 + exp (- (ln (x / sc) / s))))).
          - rewrite Heq at 1. field. exact Hne.
          - rewrite Heq. lra. }
        lra. }
      apply exp_inv in He1.
      assert (Hln : ln (x / sc) = ln 1).
      { rewrite ln_1.
        assert (H0 : ln (x / sc) / s = 0) by lra.
        replace (ln (x / sc)) with (ln (x / sc) / s * s) by (field; lra).
        rewrite H0. ring. }
      apply ln_inv in Hln; [| apply Rdiv_lt_0_compat; assumption | lra].
      replace x with (x / sc * sc) by (field; lra).
      rewrite Hln. ring.
    + intros Heq. injection Heq as Heq. lra.
  - intros s sc Hs Hsc. rewrite LogLogistic_valid by assumption.
    rewrite !bool_decide_eq_true_2 by lra. simpl. f_equal.
    replace (1 / 2 / (1 - 1 / 2)) with 1 by field.
    rewrite ln_1, Rmult_0_r, exp_0. ring.
Qed.

Lemma median_draws_laws : RandomStateLaws LogLogistic.median_draws.
Proof.
  split; simpl.
  - intros mean sigma rows cols. apply length_replicate.
  - intros mean sigma rows cols draw Hdraw.
    apply elem_of_replicate in Hdraw as [-> _].
    rewrite length_fmap, length_take, length_app, length_replicate. lia.
  - intros mean sigma rows cols draw x Hmean _ Hdraw Hx.
    apply elem_of_replicate in Hdraw as [-> _].
    apply list_elem_of_fmap in Hx as (m & -> & Hm).
    assert (Hfin : exists r, m = Fin r).
    { apply elem_of_take in Hm as (i & Hi & _).
      apply list_elem_of_lookup_2 in Hi.
      apply elem_of_app in Hi as [Hi|Hi].
      - rewrite Forall_forall in Hmean. specialize (Hmean m Hi).
        destruct m as [|r]; [discriminate | exists r; reflexivity].
      - apply elem_of_replicate in Hi as [-> _]. exists 0. reflexivity. }
    destruct Hfin as [r ->]. simpl.
    apply bool_decide_eq_true_2. apply exp_pos.
Qed.

(* ===================================================================== *)
(** * The statements at concrete inputs *)
(* ===================================================================== *)

Lemma positive_Fin (r : R) : 0 < r -> positive (Fin r).
Proof. intros H. exists r. split; [reflexivity | exact H]. Defined.

Lemma nan_or_le0_Fin (r : R) : r <= 0 -> nan_or_le0 (Fin r).
Proof. intros H. right. exists r. split; [reflexivity | exact H]. Defined.

Lemma round_trip_breaks_at_probe :
  fst (ppf_of_cdf (prim := LogLogistic.prim) [Examples.probe] 7
         (Examples.heap_with [[Fin 2]]))
  = Ok [[Fin 1]]
  /\ exists y : float,
       fst (cdf_of_ppf (prim := LogLogistic.prim) [Examples.probe] 7
              (Examples.heap_with [[Fin (1 / 2)]]))
       = Ok [[y]]
       /\ y <> Fin (1 / 2).
Proof.
  split.
  - apply (round_trip_breaks_on_mismatched_slots LogLogistic_laws).
    reflexivity.
  - apply (round_trip_breaks_on_mismatched_slots LogLogistic_laws).
    reflexivity.
Defined.

Lemma cdf_slots_at_probe :
  fst (cdf (prim := LogLogistic.prim) [Examples.probe] 7
         (Examples.heap_with [[Fin 2]]))
  = Ok [[Fin (1 / 2)]]
  /\ for_rows 1
       (cdf_row_as_specified (prim := LogLogistic.prim) [Examples.probe] [[Fin 2]])
       (zeros_like [[Fin 2]])
     <> Ok [[Fin (1 / 2)]].
Proof.
  apply (cdf_passes_scale_as_shape_and_loc_as_scale LogLogistic_laws).
  reflexivity.
Defined.

Lemma validate_at_examples :
  validate [Examples.probe; Examples.mirrored] = Ok tt
  /\ validate [Examples.probe; Examples.bad_scale]
     = Raise (InvalidParamsError scale_msg)
  /\ validate [Examples.bad_shape; Examples.probe]
     = Raise (InvalidParamsError shape_msg).
Proof.
  split; [|split].
  - apply (validate_accepts_exactly_positive_rows
             [Examples.probe; Examples.mirrored]).
    repeat constructor; apply positive_Fin; simpl; lra.
  - apply (validate_accepts_exactly_positive_rows
             [Examples.probe; Examples.bad_scale]).
    right. left. apply nan_or_le0_Fin. lra.
  - apply (validate_accepts_exactly_positive_rows
             [Examples.bad_shape; Examples.probe]).
    + repeat constructor; apply positive_Fin; simpl; lra.
    + left. left. reflexivity.
Defined.

Lemma pdf_upper_bound_at_bounded_row :
  snd (default_range (Fin 3) Examples.bounded) = Fin (Rabs (-1))
  /\ snd (default_range (Fin 3) Examples.bounded) <> Fin (Rabs 5)
  /\ snd (default_range (Fin 3) Examples.probe)
     = Fin (1 * Rpower (exp 1) 3).
Proof.
  split; [|split].
  - apply (pdf_default_upper_bound (prim := LogLogistic.prim)
             (Fin 3) 200 Examples.bounded); reflexivity.
  - apply (proj1 (proj2 (proj2 (pdf_default_upper_bound
             (prim := LogLogistic.prim) (Fin 3) 200 Examples.bounded)))
             (-1) 5); [reflexivity | reflexivity |].
    rewrite Rabs_left, Rabs_right; lra.
  - apply (pdf_default_upper_bound (prim := LogLogistic.prim)
             (Fin 3) 200 Examples.probe). reflexivity.
Defined.

Lemma cdf_in_place_at_two_rows :
  exists m' : matrix,
    snd (cdf (prim := LogLogistic.prim) Examples.two_rows 7
           (Examples.heap_with Examples.values_2x2)) !! 7%nat
    = Some (Arr2 m')
    /\ m' !! 0%nat = Some [Float.neg (Fin 1); Float.neg (Fin 2)]
    /\ m' !! 1%nat = Some [Fin 3; Fin 4].
Proof.
  destruct (cdf_negates_flagged_rows_in_place (prim := LogLogistic.prim)
              Examples.two_rows 7 (Examples.heap_with Examples.values_2x2)
              Examples.values_2x2 eq_refl eq_refl)
    as (m' & Hobj & _ & Hrows & _).
  exists m'. split; [exact Hobj|]. split.
  - exact (Hrows 0%nat Examples.mirrored [Fin 1; Fin 2] eq_refl eq_refl).
  - exact (Hrows 1%nat Examples.probe [Fin 3; Fin 4] eq_refl eq_refl).
Defined.

Lemma random_variables_at_two_rows :
  exists data : matrix,
    random_variables LogLogistic.median_draws Examples.two_rows 3 None = Ok data
    /\ length data = 2%nat
    /\ Forall (fun row : vec => length row = 3%nat) data.
Proof.
  destruct (random_variables_flips_sign_after_sampling
              LogLogistic.median_draws Examples.two_rows 3 None
              median_draws_laws)
    as (data & Hrun & Hlen & Hrows & _).
  exists data. split; [exact Hrun|]. split; [exact Hlen | exact Hrows].
Defined.

Lemma cdf_rejects_two_rows_for_three :
  length Examples.values_2x2 = 2%nat
  /\ length Examples.three_rows = 3%nat
  /\ cdf (prim := LogLogistic.prim) Examples.three_rows 7
       (Examples.heap_with Examples.values_2x2)
     = (Raise ImproperBoundsError, Examples.heap_with Examples.values_2x2).
Proof.
  split; [reflexivity|]. split; [reflexivity|].
  apply (cdf_rejects_row_count_mismatch (prim := LogLogistic.prim)
           Examples.three_rows 7 (Examples.heap_with Examples.values_2x2)
           Examples.values_2x2).
  - reflexivity.
  - simpl. lia.
Defined.

Lemma validate_ignores_loc_at_probe :
  validate [with_loc NaN Examples.probe] = Ok tt
  /\ validate [with_loc (Fin (-4)) Examples.probe] = validate [Examples.mirrored]
  /\ fst (cdf (prim := LogLogistic.prim) [with_loc NaN Examples.probe] 7
            (Examples.heap_with [[Fin 2]]))
     = Ok [[lognorm_cdf (Lognorm := LogLogistic.prim) (Fin 2) (Fin 1) NaN]].
Proof.
  split; [|split].
  - apply (validate_reads_only_scale_and_shape (prim := LogLogistic.prim));
      apply positive_Fin; simpl; lra.
  - apply (validate_reads_only_scale_and_shape (prim := LogLogistic.prim));
      reflexivity.
  - apply (proj2 (proj2 (validate_reads_only_scale_and_shape
             (prim := LogLogistic.prim))) Examples.probe NaN (Fin 2));
      reflexivity.
Defined.

(* ===================================================================== *)
(** * The further properties at concrete inputs *)
(* ===================================================================== *)

Lemma ppf_keeps_heap_at_two_rows :
  exists out : matrix,
    ppf (prim := LogLogistic.prim) Examples.two_rows 7
      (Examples.heap_with Examples.values_2x2)
    = (Ok out, Examples.heap_with Examples.values_2x2)
    /\ length out = 2%nat.
Proof.
  destruct (ppf_reads_shape_and_scale_and_keeps_heap (prim := LogLogistic.prim)
              Examples.two_rows 7 (Examples.heap_with Examples.values_2x2)
              Examples.values_2x2 eq_refl eq_refl)
    as (out & Hrun & Hlen & _).
  exists out. split; [exact Hrun | exact Hlen].
Defined.

Lemma ppf_negated_at_two_rows :
  exists out : matrix,
    fst (ppf (prim := LogLogistic.prim)
           (with_negative false <$> Examples.two_rows) 7
           (Examples.heap_with Examples.values_2x2)) = Ok out
    /\ fst (ppf (prim := LogLogistic.prim)
              (with_negative true <$> Examples.two_rows) 7
              (Examples.heap_with Examples.values_2x2)) = Ok (neg_rows out).
Proof.
  apply (ppf_of_flagged_table_is_negated (prim := LogLogistic.prim)
           Examples.two_rows 7 (Examples.heap_with Examples.values_2x2)
           Examples.values_2x2); reflexivity.
Defined.

Lemma cdf_and_ppf_shape_at_two_rows :
  exists c q : matrix,
    fst (cdf (prim := LogLogistic.prim) Examples.two_rows 7
           (Examples.heap_with Examples.values_2x2)) = Ok c
    /\ fst (ppf (prim := LogLogistic.prim) Examples.two_rows 7
              (Examples.heap_with Examples.values_2x2)) = Ok q
    /\ length c = 2%nat /\ length q = 2%nat.
Proof.
  destruct (cdf_and_ppf_keep_shape (prim := LogLogistic.prim)
              Examples.two_rows 7 (Examples.heap_with Examples.values_2x2)
              Examples.values_2x2 eq_refl eq_refl)
    as (c & q & Hc & Hq & Hlc & Hlq & _).
  exists c, q. repeat split; assumption.
Defined.

Lemma cdf_twice_at_two_rows :
  snd (cdf (prim := LogLogistic.prim) Examples.two_rows 7
         (snd (cdf (prim := LogLogistic.prim) Examples.two_rows 7
                 (Examples.heap_with Examples.values_2x2))))
  = Examples.heap_with Examples.values_2x2.
Proof.
  apply (cdf_twice_restores_argument (prim := LogLogistic.prim)
           Examples.two_rows 7 (Examples.heap_with Examples.values_2x2)
           Examples.values_2x2); reflexivity.
Defined.

Lemma cdf_keeps_heap_at_unflagged_rows :
  snd (cdf (prim := LogLogistic.prim) [Examples.probe; Examples.bounded] 7
         (Examples.heap_with Examples.values_2x2))
  = Examples.heap_with Examples.values_2x2.
Proof.
  rewrite (cdf_without_flags_keeps_heap (prim := LogLogistic.prim)
             [Examples.probe; Examples.bounded] 7
             (Examples.heap_with Examples.values_2x2) Examples.values_2x2);
    [reflexivity | reflexivity | reflexivity |].
  repeat constructor.
Defined.

Lemma cdf_flagged_at_negated_values :
  fst (cdf (prim := LogLogistic.prim)
         (with_negative true <$> Examples.two_rows) 7
         (Examples.heap_with Examples.values_2x2))
  = fst (cdf (prim := LogLogistic.prim)
           (with_negative false <$> Examples.two_rows) 7
           (Examples.heap_with (neg_rows Examples.values_2x2))).
Proof.
  apply (cdf_of_flagged_table_evaluates_at_negated_values
           (prim := LogLogistic.prim) Examples.two_rows 7 7
           (Examples.heap_with Examples.values_2x2)
           (Examples.heap_with (neg_rows Examples.values_2x2))
           Examples.values_2x2); reflexivity.
Defined.

Lemma validate_concatenation_at_examples :
  validate ([Examples.probe] ++ [Examples.mirrored]) = Ok tt
  /\ (validate ([Examples.probe] ++ [Examples.bad_shape]) = Ok tt ->
      validate [Examples.bad_shape] = Ok tt).
Proof.
  split.
  - apply (proj2 (validate_of_concatenation _ _)).
    split; apply validate_ok_iff; split;
      repeat constructor; apply positive_Fin; simpl; lra.
  - intros H. apply (proj1 (validate_of_concatenation _ _)) in H.
    exact (proj2 H).
Defined.

Lemma pdf_degenerate_at_bounded_row :
  pdf (prim := LogLogistic.prim) (Fin 3) 200 [Examples.bounded] None
  = Ok (replicate 200 (Fin (Rabs (-1))),
        replicate 200 (LogLogistic.pdf (Fin (Rabs (-1))) (Fin 1) (Fin 1))).
Proof.
  apply (pdf_default_curve_degenerates_when_bounds_set
           (prim := LogLogistic.prim) (Fin 3) 200 Examples.bounded (-1) 5);
    reflexivity.
Defined.

(* ===================================================================== *)
(** * The saturating machine satisfies the facts *)
(* ===================================================================== *)

Lemma exp_monotone (x y : R) : x <= y -> exp x <= exp y.
Proof.
  intros [Hlt|Heq]; [left; apply exp_increasing; exact Hlt | right; congruence].
Qed.

Lemma exp_1_ge_2 : 2 <= exp 1.
Proof. pose proof (exp_ineq1 1 ltac:(lra)). lra. Qed.

Lemma exp_INR_lower (n : nat) : 2 ^ n <= exp (INR n).
Proof.
  induction n as [|n IH].
  - simpl. rewrite exp_0. lra.
  - rewrite S_INR, exp_plus. change (2 ^ S n) with (2 * 2 ^ n).
    pose proof exp_1_ge_2. pose proof (exp_pos (INR n)).
    assert (0 < 2 ^ n) by (apply pow_lt; lra).
    set (t := 2 ^ n) in *. set (e := exp (INR n)) in *. nra.
Qed.

Lemma exp_INR_upper (n : nat) : exp (INR n) <= 3 ^ n.
Proof.
  induction n as [|n IH].
  - simpl. rewrite exp_0. lra.
  - rewrite S_INR, exp_plus. change (3 ^ S n) with (3 * 3 ^ n).
    pose proof exp_le_3. pose proof (exp_pos (INR n)). pose proof (exp_pos 1).
    set (t := 3 ^ n) in *. set (e := exp (INR n)) in *. nra.
Qed.

Lemma INR_literal (n : nat) (z : Z) : Z.of_nat n = z -> INR n = IZR z.
Proof. intros <-. apply INR_IZR_INZ. Qed.

Lemma three_600_lt : 3 ^ 600 < 2 ^ 1024.
Proof. rewrite !pow_IZR. apply IZR_lt. vm_compute. reflexivity. Qed.

Lemma three_250_le : 3 ^ 250 <= 2 ^ 500.
Proof. rewrite !pow_IZR. apply IZR_le. vm_compute. discriminate. Qed.

Lemma pow2_500_lt : 2 ^ 500 < 2 ^ 1024.
Proof. apply Rlt_pow; [lra | lia]. Qed.

Lemma pow2_1000_lt : 2 ^ 1000 < 2 ^ 1024.
Proof. apply Rlt_pow; [lra | lia]. Qed.

Lemma pow2_1024_pos : 0 < 2 ^ 1024.
Proof. apply pow_lt. lra. Qed.

Lemma saturate_finite (r : R) :
  - 2 ^ 1024 < r < 2 ^ 1024 -> Saturating.saturate r = XFin r.
Proof.
  intros H. unfold Saturating.saturate.
  rewrite !bool_decide_eq_false_2 by lra. reflexivity.
Qed.

Lemma saturate_overflow (r : R) :
  2 ^ 1024 <= r -> Saturating.saturate r = XInf false.
Proof.
  intros H. unfold Saturating.saturate.
  rewrite bool_decide_eq_true_2 by exact H. reflexivity.
Qed.

Lemma saturate_nonnegative (r : R) :
  0 <= r ->
  (2 ^ 1024 <= r /\ Saturating.saturate r = XInf false)
  \/ (r < 2 ^ 1024 /\ Saturating.saturate r = XFin r).
Proof.
  intros Hr. pose proof pow2_1024_pos as HM.
  destruct (Rle_lt_dec (2 ^ 1024) r) as [H|H].
  - left. split; [exact H | apply saturate_overflow; exact H].
  - right. split; [exact H | apply saturate_finite; lra].
Qed.

Lemma Saturating_laws : MachineLaws Saturating.machine.
Proof.
  pose proof pow2_1024_pos as HM.
  split; cbn [rnd np_exp_finite libm_pow2 Saturating.machine].
  - intros r. unfold Saturating.saturate. repeat case_bool_decide; discriminate.
  - intros a b Hab. unfold Saturating.saturate. set (M := 2 ^ 1024) in *.
    repeat case_bool_decide; cbn [XFloat.le negb]; try reflexivity;
      try (apply bool_decide_eq_true_2; lra); exfalso; lra.
  - intros r r' H.
    assert (Hr : r' = r /\ - 2 ^ 1024 < r < 2 ^ 1024).
    { unfold Saturating.saturate in H. set (M := 2 ^ 1024) in *.
      repeat case_bool_decide; try discriminate.
      injection H as <-. split; [reflexivity | lra]. }
    destruct Hr as [-> Hr]. apply saturate_finite. exact Hr.
  - intros r. unfold Saturating.saturate. set (M := 2 ^ 1024) in *.
    repeat case_bool_decide; cbn [XFloat.neg negb]; try reflexivity;
      exfalso; lra.
  - apply saturate_finite. lra.
  - apply saturate_finite.
    assert (1 <= 2 ^ 1024) by (apply pow_R1_Rle; lra). lra.
  - intros a. pose proof (exp_pos a) as He.
    destruct (saturate_nonnegative (exp a)) as [[_ H] | [_ H]]; [lra | |].
    + left. exact H.
    + right. exists (exp a). split; [exact H|]. split; [lra | exact H].
  - intros a n Hn.
    assert (Hlow : 2 ^ n <= exp a).
    { eapply Rle_trans; [apply exp_INR_lower | apply exp_monotone; exact Hn]. }
    pose proof (exp_pos a) as He.
    destruct (saturate_nonnegative (exp a)) as [[_ ->] | [_ ->]]; [lra | |].
    + reflexivity.
    + apply bool_decide_eq_true_2. exact Hlow.
  - intros a Ha. apply saturate_overflow.
    eapply Rle_trans; [apply (exp_INR_lower 1024)|]. apply exp_monotone.
    rewrite (INR_literal 1024 1024) by reflexivity. exact Ha.
  - intros a Ha. exists (exp a). apply saturate_finite.
    pose proof (exp_pos a) as He. pose proof three_600_lt as H3.
    assert (Hup : exp a <= 3 ^ 600).
    { eapply Rle_trans; [|apply (exp_INR_upper 600)]. apply exp_monotone.
      rewrite (INR_literal 600 600) by reflexivity. exact Ha. }
    set (M := 2 ^ 1024) in *. set (t := 3 ^ 600) in *. lra.
  - intros a [Ha1 Ha2]. pose proof (exp_pos a) as He.
    pose proof three_250_le as H3. pose proof pow2_500_lt as H5.
    assert (H250 : INR 250 = 250) by (apply (INR_literal 250 250); reflexivity).
    assert (Hup : exp a <= 2 ^ 500).
    { eapply Rle_trans; [|exact H3].
      eapply Rle_trans; [|apply (exp_INR_upper 250)]. apply exp_monotone.
      rewrite H250. exact Ha2. }
    assert (Hlow : / 2 ^ 500 <= exp a).
    { assert (Hneg : exp (- a) <= 2 ^ 500).
      { eapply Rle_trans; [|exact H3].
        eapply Rle_trans; [|apply (exp_INR_upper 250)]. apply exp_monotone.
        rewrite H250. lra. }
      rewrite exp_Ropp in Hneg.
      assert (Hpos : 0 < 2 ^ 500) by (apply pow_lt; lra).
      rewrite <- (Rinv_inv (exp a)).
      apply Rinv_le_contravar; [apply Rinv_0_lt_compat; exact He | exact Hneg]. }
    rewrite saturate_finite.
    + cbn [XFloat.le]. split; apply bool_decide_eq_true_2; assumption.
    + set (M := 2 ^ 1024) in *. set (t := 2 ^ 500) in *. lra.
  - intros a. assert (Hsq : 0 <= a * a) by nra.
    destruct (saturate_nonnegative (a * a) Hsq) as [[_ H] | [_ H]].
    + left. exact H.
    + right. exists (a * a). split; [exact H|]. split; [exact Hsq | exact H].
  - intros a Ha. assert (Hsq : 0 <= a * a) by nra.
    destruct (saturate_nonnegative (a * a) Hsq) as [[_ ->] | [_ ->]].
    + reflexivity.
    + apply bool_decide_eq_true_2. exact Ha.
  - intros a Ha. apply saturate_overflow. exact Ha.
  - intros a Ha. exists (a * a). apply saturate_finite.
    pose proof pow2_1000_lt as H. assert (Hsq : 0 <= a * a) by nra.
    set (M := 2 ^ 1024) in *. set (t := 2 ^ 1000) in *. lra.
  - intros a Ha.
    assert (Hpos : 0 < / 2 ^ 1000) by (apply Rinv_0_lt_compat, pow_lt; lra).
    assert (Hsq : 0 < a * a) by (set (t := / 2 ^ 1000) in *; lra).
    destruct (saturate_nonnegative (a * a)) as [[_ ->] | [_ ->]];
      [lra | discriminate |].
    intros [= H]. lra.
Qed.

(* ===================================================================== *)
(** * [statistics] at concrete inputs *)
(* ===================================================================== *)

Lemma validate_accepts_positive_row (p : params_row) (mu sigma : R) :
  scale p = Fin mu -> shape p = Fin sigma -> 0 < mu -> 0 < sigma ->
  validate [p] = Ok tt.
Proof.
  intros Hmu Hsigma Hmupos Hsigmapos. apply validate_ok_iff. simpl.
  rewrite Hmu, Hsigma.
  split; repeat constructor; eexists; (split; [reflexivity | assumption]).
Defined.

(** A row that [validate] accepts on which [statistics] returns
    nothing: [shape = 600], flagged [negative]. *)
Lemma statistics_raises_on_valid_row :
  validate [Examples.wide] = Ok tt
  /\ negative Examples.wide = true
  /\ statistics (mach := Saturating.machine) LogLogistic.flag_from_loc
       [Examples.wide] false
     = Raise OverflowError
  /\ statistics (mach := Saturating.machine) LogLogistic.flag_from_loc
       [with_negative false Examples.wide] false
     = Raise OverflowError.
Proof.
  split; [|split; [reflexivity | split]].
  - apply (validate_accepts_positive_row Examples.wide 1 600);
      [reflexivity | reflexivity | lra | lra].
  - rewrite statistics_by_values.
    rewrite (statistics_values_overflow Saturating_laws Examples.wide eq_refl).
    reflexivity.
  - rewrite statistics_by_values.
    rewrite (statistics_values_overflow Saturating_laws
               (with_negative false Examples.wide) eq_refl).
    reflexivity.
Defined.

Lemma statistics_of_mirrored_row_at_probe :
  exists s : stats,
    statistics (mach := Saturating.machine) LogLogistic.flag_from_loc
      [with_negative false Examples.probe] false = Ok s
    /\ statistics (mach := Saturating.machine) LogLogistic.flag_from_loc
         [with_negative true Examples.probe] false
       = Ok (mirrored_stats (mach := Saturating.machine) s)
    /\ median s = XFloat.np_exp (mach := Saturating.machine) (XFin 1).
Proof.
  destruct (statistics_of_mirrored_row Saturating_laws
              LogLogistic.flag_from_loc Examples.probe)
    as (Hmirror & Hmedian & Hreturn).
  destruct (Hreturn 1 eq_refl ltac:(lra)) as [s Hs].
  exists s. split; [exact Hs|]. split.
  - rewrite Hmirror, Hs. reflexivity.
  - exact (Hmedian s Hs).
Defined.

(** A row that [validate] accepts whose returned interval is not
    oriented: [scale = shape = 2000], where both exponentials are
    infinite and [lower] is NaN. *)
Lemma statistics_interval_not_oriented_at_huge_row :
  validate [Examples.huge] = Ok tt
  /\ exists s : stats,
       statistics (mach := Saturating.machine) LogLogistic.flag_from_loc
         [Examples.huge] false = Ok s
       /\ lower s = XNaN
       /\ XFloat.le (lower s) (upper s) = false.
Proof.
  split.
  - apply (validate_accepts_positive_row Examples.huge 2000 2000);
      [reflexivity | reflexivity | lra | lra].
  - destruct (statistics_values_both_infinite Saturating_laws
                Examples.huge 2000 2000 eq_refl eq_refl)
      as (mo & me & Hv).
    + apply (exp_overflow (MachineLaws := Saturating_laws)). lra.
    + apply (exp_overflow (MachineLaws := Saturating_laws)). lra.
    + pose proof pow2_1000_large as H. set (t := 2 ^ 1000) in *. lra.
    + rewrite statistics_by_values, Hv. eexists. split; [reflexivity|].
      split; reflexivity.
Defined.

Lemma statistics_interval_at_examples :
  exists s : stats,
    statistics (mach := Saturating.machine) LogLogistic.flag_from_loc
      [Examples.mirrored] true = Ok s
    /\ XFloat.le (lower s) (upper s) = true.
Proof.
  refine (proj2 (statistics_interval_is_oriented Saturating_laws
                   LogLogistic.flag_from_loc Examples.mirrored true _ _ _)
                1 eq_refl _).
  - intros _. split; reflexivity.
  - apply positive_Fin. lra.
  - apply positive_Fin. lra.
  - lra.
Defined.

Lemma statistics_median_inside_at_probe :
  exists s : stats,
    statistics (mach := Saturating.machine) LogLogistic.flag_from_loc
      [Examples.probe] false = Ok s
    /\ XFloat.le (lower s) (median s) = true
    /\ XFloat.le (median s) (upper s) = true.
Proof.
  destruct (statistics_values_return Saturating_laws Examples.probe 1 eq_refl)
    as (gm & mo & me & lo & hi & Hv & g & Hg); [lra|].
  destruct (record_of_values Saturating_laws LogLogistic.flag_from_loc
              Examples.probe _ _ _ _ _ Hv) as (s & Hs & _).
  exists s. split; [exact Hs|].
  apply (statistics_median_within_interval Saturating_laws
           LogLogistic.flag_from_loc Examples.probe 1 1 s);
    [reflexivity | reflexivity | lra | lra | exact Hs |].
  left. cbn [XFloat.np_exp]. rewrite Hg. discriminate.
Defined.
